(** * Composite template rendering (alpha/template/composite/composite.go)

    A shallow embedding of the composite-template engine: fetching the catalog
    configuration, parsing the two configuration documents, assembling the
    catalog/builder matrix and dispatching [Build] / [Validate] per component.

    Go maps are [gmap]s keyed by strings.  Go errors are values with a message
    and an optional cause.  Calls into code outside the package (builder
    constructors, [Build], [Validate]) are recorded, in order, in a call log
    that is threaded together with the state of the outside world. *)

From Stdlib Require Import Ascii String.
From stdpp Require Import base option list gmap strings fin_maps.

Set Default Proof Using "Type".

(** ** Go errors and [fmt] formatting *)

(** An [error] is what [fmt.Errorf] produces: a message, and with the [%w] verb
    also the wrapped cause.  Errors coming from outside (a failing [Build], a
    failing [os.Open]) are values of the same interface. *)
Inductive error : Type :=
  | errorString (s : string)
  | wrapError (msg : string) (err : error).

(** [err.Error()] *)
Definition Error (e : error) : string :=
  match e with
  | errorString s => s
  | wrapError msg _ => msg
  end.

(** [errors.Unwrap(err)] *)
Definition Unwrap (e : error) : option error :=
  match e with
  | errorString _ => None
  | wrapError _ err => Some err
  end.

Definition newline : string := String (ascii_of_nat 10) EmptyString.

(** [strings.Join(l, sep)] *)
Fixpoint Join (l : list string) (sep : string) : string :=
  match l with
  | [] => ""
  | [x] => x
  | x :: rest => x +:+ sep +:+ Join rest sep
  end.

(** The [%s] verb applied to a [[]string]: the elements, space separated,
    between square brackets. *)
Definition fmt_strings (l : list string) : string := "[" +:+ Join l " " +:+ "]".

(** [s] occurs in [t] as a contiguous substring. *)
Definition occurs_in (s t : string) : Prop :=
  ∃ pre post : string, t = pre +:+ s +:+ post.

(** ** Configuration documents (config.go) *)

(** Modelled from the spec: the configuration types live in config.go, which
    is outside the source at hand; the fields are those of the documents in the
    external-interface section and the ones composite.go reads. *)
Module CatalogDestination.
Record t : Type := mk { WorkingDir : string }.
End CatalogDestination.

Module Catalog.
Record t : Type := mk {
  Name : string;
  Destination : CatalogDestination.t;
  Builders : list string }.
End Catalog.

Module CatalogConfig.
Record t : Type := mk {
  Schema : string;
  Catalogs : list Catalog.t }.
End CatalogConfig.

Module TemplateDefinition.
(** [Config] carries the builder-specific fields, undecoded. *)
Record t : Type := mk {
  Schema : string;
  Config : string }.
End TemplateDefinition.

Module Strategy.
Record t : Type := mk { Template : TemplateDefinition.t }.
End Strategy.

Module ComponentDestination.
Record t : Type := mk { Path : string }.
End ComponentDestination.

Module Component.
Record t : Type := mk {
  Name : string;
  Destination : ComponentDestination.t;
  Strategy : Strategy.t }.
End Component.

Module CompositeConfig.
Record t : Type := mk {
  Schema : string;
  Components : list Component.t }.
End CompositeConfig.

(** Modelled from the spec: [BuilderConfig] is declared in builder.go, outside
    the source at hand; it carries the output type the builders share. *)
Record BuilderConfig : Type := { OutputType : string }.

(** ** Calls that leave the package *)

(** One entry per call, with the receiver identified by the keys under which
    the builder sits in the matrix, the arguments that vary from call to call,
    and the error the call returned ([None] is Go's [nil]). *)
Inductive Call : Type :=
  | NewBuilderCall (schema : string) (cfg : BuilderConfig)
  | BuildCall (component : string) (path : string)
      (template : TemplateDefinition.t) (ret : option error)
  | ValidateCall (component schema : string) (path : string) (ret : option error).

(** The error a [Build] or [Validate] call returned; [None] for a constructor
    call and for a call that returned [nil]. *)
Definition Call_failure (c : Call) : option error :=
  match c with
  | NewBuilderCall _ _ => None
  | BuildCall _ _ _ ret => ret
  | ValidateCall _ _ _ ret => ret
  end.

Definition is_builder_call (c : Call) : bool :=
  match c with
  | NewBuilderCall _ _ => false
  | _ => true
  end.

(** The component on whose behalf a builder was invoked. *)
Definition Call_component (c : Call) : option string :=
  match c with
  | NewBuilderCall _ _ => None
  | BuildCall n _ _ _ => Some n
  | ValidateCall n _ _ _ => Some n
  end.

(** The schema key of the builder that was invoked. *)
Definition Call_schema (c : Call) : option string :=
  match c with
  | NewBuilderCall _ _ => None
  | BuildCall _ _ template _ => Some (TemplateDefinition.Schema template)
  | ValidateCall _ schema _ _ => Some schema
  end.

(** ** Iteration over a Go map *)

(** [for k, v := range m] visits every entry once, in an order the language
    leaves open.  The order is an oracle: any enumeration that is a
    permutation of the entries. *)
Record MapRange : Type := {
  range : ∀ A : Type, gmap string A → list (string * A);
  range_perm : ∀ (A : Type) (m : gmap string A), range A m ≡ₚ map_to_list m }.
Arguments range _ {A} _.

(** The oracle that visits entries in the order of [map_to_list]. *)
Definition range_canonical : MapRange :=
  {| range := λ A m, map_to_list m;
     range_perm := λ A m, reflexivity (map_to_list m) |}.

Section Composite.

(** The world outside the process: file system, network, image registry. *)
Context {World : Type}.
(** [context.Context], [image.Registry], [io.Reader] and [io.ReadCloser]. *)
Context {Ctx ImageRegistry Reader ReadCloser : Type}.

(** [strconv.Quote], the [%q] verb on strings. *)
Variable quote : string → string.

(** Order of map iteration. *)
Variable R : MapRange.

(** Schema constants of config.go. *)
Variables CatalogSchema CompositeSchema : string.

(** [yaml.NewYAMLOrJSONDecoder(r, 4096).Decode(&doc)]: the first document of
    the stream as raw JSON. *)
Variable YAMLOrJSONDecode : Reader → error + string.
(** [json.Unmarshal] into each of the two target types. *)
Variable Unmarshal_CatalogConfig : string → error + CatalogConfig.t.
Variable Unmarshal_CompositeConfig : string → error + CompositeConfig.t.

(** *** State, and the monad of fallible stateful computations *)

Record State : Type := {
  world : World;
  calls : list Call }.

Definition M (A : Type) : Type := State → (error + A) * State.

Definition ret {A} (a : A) : M A := λ s, (inr a, s).

(** [return nil, err] *)
Definition fail {A} (e : error) : M A := λ s, (inl e, s).

Definition bind {A B} (m : M A) (k : A → M B) : M B := λ s,
  match m s with
  | (inl e, s') => (inl e, s')
  | (inr a, s') => k a s'
  end.

(** [if err != nil { return nil, f(err) }] around a call. *)
Definition or_else {A} (m : M A) (f : error → error) : M A := λ s,
  match m s with
  | (inl e, s') => (inl (f e), s')
  | (inr a, s') => (inr a, s')
  end.

Definition of_result {A} (r : error + A) : M A := λ s, (r, s).

Definition record (c : Call) : M unit := λ s,
  (inr tt, {| world := world s; calls := calls s ++ [c] |}).

Notation "'let*' x ':=' m 'in' k" := (bind m (λ x, k))
  (at level 10, x pattern, m at level 100, k at level 200, only parsing).

(** *** Builders (builder.go) *)

(** Modelled from the spec: the [Builder] interface is declared in
    builder.go, outside the source at hand; its two methods are the ones
    [Render] calls, with the arguments it passes.  Both act on the outside
    world. *)
Record Builder : Type := {
  Build : Ctx → ImageRegistry → string → TemplateDefinition.t →
          World → option error * World;
  Validate : Ctx → string → World → option error * World }.

Abbreviation BuilderMap := (gmap string Builder).
Abbreviation CatalogBuilderMap := (gmap string BuilderMap).
Abbreviation builderFunc := (BuilderConfig → Builder).

Record Template : Type := {
  catalogFile : Reader;
  contributionFile : Reader;
  validate : bool;
  outputType : string;
  registry : ImageRegistry;
  registeredBuilders : gmap string builderFunc }.

Definition TemplateOption : Type := Template → Template.

Definition WithCatalogFile (catalogFile' : Reader) : TemplateOption := λ t,
  {| catalogFile := catalogFile'; contributionFile := contributionFile t;
     validate := validate t; outputType := outputType t;
     registry := registry t; registeredBuilders := registeredBuilders t |}.

Definition WithContributionFile (contribFile : Reader) : TemplateOption := λ t,
  {| catalogFile := catalogFile t; contributionFile := contribFile;
     validate := validate t; outputType := outputType t;
     registry := registry t; registeredBuilders := registeredBuilders t |}.

Definition WithOutputType (outputType' : string) : TemplateOption := λ t,
  {| catalogFile := catalogFile t; contributionFile := contributionFile t;
     validate := validate t; outputType := outputType';
     registry := registry t; registeredBuilders := registeredBuilders t |}.

Definition WithRegistry (reg : ImageRegistry) : TemplateOption := λ t,
  {| catalogFile := catalogFile t; contributionFile := contributionFile t;
     validate := validate t; outputType := outputType t;
     registry := reg; registeredBuilders := registeredBuilders t |}.

Definition WithValidate (validate' : bool) : TemplateOption := λ t,
  {| catalogFile := catalogFile t; contributionFile := contributionFile t;
     validate := validate'; outputType := outputType t;
     registry := registry t; registeredBuilders := registeredBuilders t |}.

(** The schema identifiers and constructors of the four default builders
    (builder.go and its siblings), and the zero values of the fields that no
    option has set. *)
Variables BasicBuilderSchema SemverBuilderSchema : string.
Variables RawBuilderSchema CustomBuilderSchema : string.
Variables NewBasicBuilder NewSemverBuilder : BuilderConfig → Builder.
Variables NewRawBuilder NewCustomBuilder : BuilderConfig → Builder.
Variable nilReader : Reader.
Variable nilRegistry : ImageRegistry.

Definition NewTemplate (opts : list TemplateOption) : Template :=
  let temp :=
    {| catalogFile := nilReader; contributionFile := nilReader;
       validate := false; outputType := ""; registry := nilRegistry;
       registeredBuilders :=
         <[BasicBuilderSchema := λ bc, NewBasicBuilder bc]>
           (<[SemverBuilderSchema := λ bc, NewSemverBuilder bc]>
              (<[RawBuilderSchema := λ bc, NewRawBuilder bc]>
                 (<[CustomBuilderSchema := λ bc, NewCustomBuilder bc]> ∅))) |} in
  foldl (λ temp opt, opt temp) temp opts.

(** The invocation of a builder method, logged with its outcome. *)
Definition call_Build (component : string) (builder : Builder) (ctx : Ctx)
    (reg : ImageRegistry) (path : string) (template : TemplateDefinition.t)
    : M (option error) := λ s,
  let '(err, w) := Build builder ctx reg path template (world s) in
  (inr err, {| world := w;
               calls := calls s ++ [BuildCall component path template err] |}).

Definition call_Validate (component schema : string) (builder : Builder)
    (ctx : Ctx) (path : string) : M (option error) := λ s,
  let '(err, w) := Validate builder ctx path (world s) in
  (inr err, {| world := w;
               calls := calls s ++ [ValidateCall component schema path err] |}).

(** *** FetchCatalogConfig *)

(** [net/url], [path/filepath], [os] and the response of [net/http]. *)
Context {URL : Type}.
Variable ParseRequestURI : string → error + URL.
Variable URL_String : URL → string.
Variable IsAbs : string → bool.
Variable os_Open : string → World → (error + ReadCloser) * World.

Record Response : Type := {
  StatusCode : Z;
  Body : ReadCloser }.

Record HttpGetter : Type := {
  Get : string → World → (error + Response) * World }.

Definition is_err {A} (r : error + A) : bool :=
  match r with inl _ => true | inr _ => false end.

(** The test [err != nil || filepath.IsAbs(path)] is spelled out on the
    result of the parse, the URI being there only when [err] is [nil]. *)
Definition FetchCatalogConfig (path : string) (httpGetter : HttpGetter)
    (w : World) : (error + ReadCloser) * World :=
  let parsed := ParseRequestURI path in
  match parsed with
  | inr catalogURI =>
      if IsAbs path then
        match os_Open path w with
        | (inl err, w') =>
            (inl (errorString ("opening catalog config file " +:+ quote path
                                 +:+ ": " +:+ Error err)), w')
        | (inr tempCatalog, w') => (inr tempCatalog, w')
        end
      else
        match Get httpGetter (URL_String catalogURI) w with
        | (inl err, w') =>
            (inl (errorString ("fetching remote catalog config file "
                                 +:+ quote path +:+ ": " +:+ Error err)), w')
        | (inr tempResp, w') => (inr (Body tempResp), w')
        end
  | inl _ =>
      match os_Open path w with
      | (inl err, w') =>
          (inl (errorString ("opening catalog config file " +:+ quote path
                               +:+ ": " +:+ Error err)), w')
      | (inr tempCatalog, w') => (inr tempCatalog, w')
      end
  end.

(** *** Parsing the two documents *)

Definition parseCatalogsSpec (t : Template) : error + CatalogConfig.t :=
  match YAMLOrJSONDecode (catalogFile t) with
  | inl err => inl (errorString ("decoding catalog config: " +:+ Error err))
  | inr catalogDoc =>
      match Unmarshal_CatalogConfig catalogDoc with
      | inl err =>
          inl (errorString ("unmarshalling catalog config: " +:+ Error err))
      | inr catalogConfig =>
          if decide (CatalogConfig.Schema catalogConfig = CatalogSchema)
          then inr catalogConfig
          else inl (errorString
                 ("catalog configuration file has unknown schema, should be "
                    +:+ quote CatalogSchema))
      end
  end.

Definition parseContributionSpec (t : Template) : error + CompositeConfig.t :=
  match YAMLOrJSONDecode (contributionFile t) with
  | inl err => inl (errorString ("decoding composite config: " +:+ Error err))
  | inr compositeDoc =>
      match Unmarshal_CompositeConfig compositeDoc with
      | inl err =>
          inl (errorString ("unmarshalling composite config: " +:+ Error err))
      | inr compositeConfig =>
          if decide (CompositeConfig.Schema compositeConfig = CompositeSchema)
          then inr compositeConfig
          else inl (errorString
                 ("composite configuration file has unknown schema, should be "
                    +:+ quote CompositeSchema))
      end
  end.

(** *** The catalog/builder matrix *)

Definition builderForSchema (t : Template) (schema : string)
    (builderCfg : BuilderConfig) : M Builder :=
  match registeredBuilders t !! schema with
  | None => fail (errorString ("unknown schema " +:+ quote schema))
  | Some builderFunc =>
      let* _ := record (NewBuilderCall schema builderCfg) in
      ret (builderFunc builderCfg)
  end.

(** The inner loop of [newCatalogBuilderMap]: one builder per declared
    schema, stopping at the first schema without a registered constructor. *)
Fixpoint newBuilderMap (t : Template) (catalogName outputType : string)
    (schemas : list string) (builderMap : BuilderMap)
    : M BuilderMap :=
  match schemas with
  | [] => ret builderMap
  | schema :: rest =>
      let* builder :=
        or_else (builderForSchema t schema {| OutputType := outputType |})
          (λ err, errorString ("getting builder " +:+ quote schema
                     +:+ " for catalog " +:+ quote catalogName
                     +:+ ": " +:+ Error err)) in
      newBuilderMap t catalogName outputType rest (<[schema := builder]> builderMap)
  end.

(** The variables the outer loop updates. *)
Record setup : Type := {
  catalogBuilderMap : CatalogBuilderMap;
  setupFailed : bool;
  setupErrors : gmap string (list string) }.

Definition workingDirMsg : string :=
  "destination.workingDir must not be an empty string".

Definition validateCatalog (catalog : Catalog.t) : list string :=
  let errs := [] in
  if decide (CatalogDestination.WorkingDir (Catalog.Destination catalog) = "")
  then errs ++ ["destination.workingDir must not be an empty string"]
  else errs.

Fixpoint setupCatalogs (t : Template) (outputType : string)
    (catalogs : list Catalog.t) (st : setup) : M setup :=
  match catalogs with
  | [] => ret st
  | catalog :: rest =>
      let errs := validateCatalog catalog in
      if 0 <? length errs then
        setupCatalogs t outputType rest
          {| catalogBuilderMap := catalogBuilderMap st;
             setupFailed := true;
             setupErrors := <[Catalog.Name catalog := errs]> (setupErrors st) |}
      else
        match catalogBuilderMap st !! Catalog.Name catalog with
        | None =>
            let* builderMap :=
              newBuilderMap t (Catalog.Name catalog) outputType
                (Catalog.Builders catalog) ∅ in
            setupCatalogs t outputType rest
              {| catalogBuilderMap :=
                   <[Catalog.Name catalog := builderMap]> (catalogBuilderMap st);
                 setupFailed := setupFailed st;
                 setupErrors := setupErrors st |}
        | Some _ => setupCatalogs t outputType rest st
        end
  end.

(** The loop that builds the text of the aggregated error, over the entries
    of [setupErrors] in the order the range statement visits them: a heading
    per catalog, then one line per field error. *)
Definition appendCatalogErrs (errMsg : string) (entry : string * list string)
    : string :=
  let '(cat, errs) := entry in
  let errMsg := errMsg +:+ (newline +:+ "Catalog " +:+ cat +:+ ":" +:+ newline) in
  foldl (λ errMsg err, errMsg +:+ ("  - " +:+ err +:+ newline)) errMsg errs.

Definition setupErrMsg (entries : list (string * list string)) : string :=
  foldl appendCatalogErrs "" entries.

Definition newCatalogBuilderMap (t : Template) (catalogs : list Catalog.t)
    (outputType : string) : M CatalogBuilderMap :=
  let* st := setupCatalogs t outputType catalogs
               {| catalogBuilderMap := ∅; setupFailed := false;
                  setupErrors := ∅ |} in
  if setupFailed st then
    fail (errorString ("catalog configuration file field validation failed: "
                         +:+ setupErrMsg (range R (setupErrors st))))
  else ret (catalogBuilderMap st).

(** *** Render *)

(** The body of the loop over components. *)
Definition renderComponent (t : Template) (ctx : Ctx) (validate' : bool)
    (catalogBuilderMap' : CatalogBuilderMap)
    (component : Component.t) : M unit :=
  let name := Component.Name component in
  let template := Strategy.Template (Component.Strategy component) in
  let path := ComponentDestination.Path (Component.Destination component) in
  match catalogBuilderMap' !! name with
  | Some builderMap =>
      match builderMap !! TemplateDefinition.Schema template with
      | Some builder =>
          let* err := call_Build name builder ctx (registry t) path template in
          match err with
          | Some err =>
              fail (wrapError ("building component " +:+ quote name +:+ ": "
                                 +:+ Error err) err)
          | None =>
              if validate' then
                let* err := call_Validate name (TemplateDefinition.Schema template)
                              builder ctx path in
                match err with
                | Some err =>
                    fail (wrapError ("validating component " +:+ quote name
                                       +:+ ": " +:+ Error err) err)
                | None => ret tt
                end
              else ret tt
          end
      | None =>
          fail (errorString ("building component " +:+ quote name
                  +:+ ": no builder found for template schema "
                  +:+ quote (TemplateDefinition.Schema template)))
      end
  | None =>
      let allowedComponents := (range R catalogBuilderMap').*1 in
      fail (errorString ("building component " +:+ quote name
              +:+ ": component does not exist in the catalog configuration. Available components are: "
              +:+ fmt_strings allowedComponents))
  end.

Fixpoint renderComponents (t : Template) (ctx : Ctx) (validate' : bool)
    (catalogBuilderMap' : CatalogBuilderMap)
    (components : list Component.t) : M unit :=
  match components with
  | [] => ret tt
  | component :: rest =>
      let* _ := renderComponent t ctx validate' catalogBuilderMap' component in
      renderComponents t ctx validate' catalogBuilderMap' rest
  end.

Definition Render (t : Template) (ctx : Ctx) (validate' : bool) : M unit :=
  let* catalogFile' := of_result (parseCatalogsSpec t) in
  let* contributionFile' := of_result (parseContributionSpec t) in
  let* catalogBuilderMap' :=
    newCatalogBuilderMap t (CatalogConfig.Catalogs catalogFile') (outputType t) in
  renderComponents t ctx validate' catalogBuilderMap'
    (CompositeConfig.Components contributionFile').

(** *** Vocabulary of the statements *)

(** The calls made between two states of one run. *)
Definition calls_since (s s' : State) : list Call :=
  drop (length (calls s)) (calls s').

(** The first catalog of the sequence that carries a given name. *)
Definition firstCatalogNamed (name : string) (catalogs : list Catalog.t)
    : option Catalog.t :=
  find (λ c, bool_decide (Catalog.Name c = name)) catalogs.

Definition workingDirEmpty (catalog : Catalog.t) : Prop :=
  CatalogDestination.WorkingDir (Catalog.Destination catalog) = "".

(** Every schema a catalog declares has a registered constructor. *)
Definition buildersRegistered (t : Template) (catalog : Catalog.t) : Prop :=
  Forall (λ schema, is_Some (registeredBuilders t !! schema))
         (Catalog.Builders catalog).

(** The first catalog of that name among those that pass field validation. *)
Definition firstValidNamed (name : string) (catalogs : list Catalog.t)
    : option Catalog.t :=
  find (λ c, bool_decide (Catalog.Name c = name)
             && negb (bool_decide (workingDirEmpty c))) catalogs.

(** [builderMap] holds exactly one builder per schema of the list, the one
    its registered constructor makes for the output type. *)
Definition builtFrom (t : Template) (outputType' : string)
    (schemas : list string) (builderMap : BuilderMap) : Prop :=
  ∀ schema,
    builderMap !! schema =
      if decide (schema ∈ schemas)
      then (λ f : builderFunc, f {| OutputType := outputType' |})
             <$> registeredBuilders t !! schema
      else None.

(** The calls one component gives rise to when nothing fails. *)
Definition componentCalls (validate' : bool) (component : Component.t)
    : list Call :=
  let name := Component.Name component in
  let template := Strategy.Template (Component.Strategy component) in
  let path := ComponentDestination.Path (Component.Destination component) in
  BuildCall name path template None ::
  (if validate'
   then [ValidateCall name (TemplateDefinition.Schema template) path None]
   else []).

(** The calls of the component at which a run stops because its [Build]
    failed, or because its [Build] went through and its [Validate] failed. *)
Definition failingCalls (component : Component.t) (inValidate : bool)
    (e : error) : list Call :=
  let name := Component.Name component in
  let template := Strategy.Template (Component.Strategy component) in
  let path := ComponentDestination.Path (Component.Destination component) in
  if inValidate
  then [BuildCall name path template None;
        ValidateCall name (TemplateDefinition.Schema template) path (Some e)]
  else [BuildCall name path template (Some e)].

(** The component's catalog and schema are keys of the matrix. *)
Definition resolves (catalogBuilderMap' : CatalogBuilderMap)
    (name schema : string) : Prop :=
  ∃ builderMap builder,
    catalogBuilderMap' !! name = Some builderMap ∧
    builderMap !! schema = Some builder.

Definition componentResolves
    (catalogBuilderMap' : CatalogBuilderMap)
    (component : Component.t) : Prop :=
  resolves catalogBuilderMap' (Component.Name component)
    (TemplateDefinition.Schema (Strategy.Template (Component.Strategy component))).

(** A logged call went to a builder that sits in the matrix. *)
Definition callResolves
    (catalogBuilderMap' : CatalogBuilderMap) (c : Call) : Prop :=
  ∃ name schema, Call_component c = Some name ∧ Call_schema c = Some schema ∧
                 resolves catalogBuilderMap' name schema.

(** The error [Render] returns when the logged call [c], made for component
    [name], returned [e]. *)
Definition componentFailure (c : Call) (name : string) (e : error) : error :=
  wrapError ((match c with
              | ValidateCall _ _ _ _ => "validating component "
              | _ => "building component "
              end) +:+ quote name +:+ ": " +:+ Error e) e.

(** The document decodes and unmarshals, and its [schema] field is not the
    expected constant. *)
Definition catalogSchemaMismatch (t : Template) : Prop :=
  ∃ doc cfg, YAMLOrJSONDecode (catalogFile t) = inr doc ∧
             Unmarshal_CatalogConfig doc = inr cfg ∧
             CatalogConfig.Schema cfg ≠ CatalogSchema.

Definition compositeSchemaMismatch (t : Template) : Prop :=
  ∃ doc cfg, YAMLOrJSONDecode (contributionFile t) = inr doc ∧
             Unmarshal_CompositeConfig doc = inr cfg ∧
             CompositeConfig.Schema cfg ≠ CompositeSchema.

Definition catalogSchemaError : error :=
  errorString ("catalog configuration file has unknown schema, should be "
                 +:+ quote CatalogSchema).

Definition compositeSchemaError : error :=
  errorString ("composite configuration file has unknown schema, should be "
                 +:+ quote CompositeSchema).

(** The messages of the errors [Render] and its helpers construct. *)
Definition unknownSchemaMsg (schema catalogName : string) : string :=
  "getting builder " +:+ quote schema +:+ " for catalog " +:+ quote catalogName
    +:+ ": " +:+ "unknown schema " +:+ quote schema.

Definition validationFailedMsg (errMsg : string) : string :=
  "catalog configuration file field validation failed: " +:+ errMsg.

Definition unknownCatalogMsg (name : string) (allowed : list string) : string :=
  "building component " +:+ quote name
    +:+ ": component does not exist in the catalog configuration. Available components are: "
    +:+ fmt_strings allowed.

Definition noBuilderMsg (name schema : string) : string :=
  "building component " +:+ quote name
    +:+ ": no builder found for template schema " +:+ quote schema.

(** The constructor calls made for one catalog: one per declared schema, in
    the order of its builder list, each with the shared output type. *)
Definition constructorCalls (outputType' : string) (catalog : Catalog.t)
    : list Call :=
  (λ schema, NewBuilderCall schema {| OutputType := outputType' |})
    <$> Catalog.Builders catalog.

(** The catalogs of a sequence that pass field validation and whose name is
    neither in [seen] nor carried by an earlier such catalog. *)
Fixpoint assembledCatalogs (seen : gset string) (catalogs : list Catalog.t)
    : list Catalog.t :=
  match catalogs with
  | [] => []
  | catalog :: rest =>
      if decide (workingDirEmpty catalog) then assembledCatalogs seen rest
      else if decide (Catalog.Name catalog ∈ seen) then assembledCatalogs seen rest
      else catalog :: assembledCatalogs ({[Catalog.Name catalog]} ∪ seen) rest
  end.

(** A constructor call for a registered schema that a catalog of the
    sequence, one that passes validation, declares. *)
Definition constructsFor (t : Template) (outputType' : string)
    (catalogs : list Catalog.t) (c : Call) : Prop :=
  ∃ schema catalog,
    c = NewBuilderCall schema {| OutputType := outputType' |} ∧
    catalog ∈ catalogs ∧ ¬ workingDirEmpty catalog ∧
    schema ∈ Catalog.Builders catalog ∧
    is_Some (registeredBuilders t !! schema).

(** The options of the package, as data: which field an option sets, and
    to what. *)
Inductive Setting : Type :=
  | SetCatalogFile (catalogFile' : Reader)
  | SetContributionFile (contribFile : Reader)
  | SetOutputType (outputType' : string)
  | SetRegistry (reg : ImageRegistry)
  | SetValidate (validate' : bool).

Definition optionOf (x : Setting) : TemplateOption :=
  match x with
  | SetCatalogFile r => WithCatalogFile r
  | SetContributionFile r => WithContributionFile r
  | SetOutputType o => WithOutputType o
  | SetRegistry reg => WithRegistry reg
  | SetValidate b => WithValidate b
  end.

(** Two settings are for the same field. *)
Definition sameField (x y : Setting) : bool :=
  match x, y with
  | SetCatalogFile _, SetCatalogFile _
  | SetContributionFile _, SetContributionFile _
  | SetOutputType _, SetOutputType _
  | SetRegistry _, SetRegistry _
  | SetValidate _, SetValidate _ => true
  | _, _ => false
  end.

(** The Template has the field of the setting at the value of the setting. *)
Definition settled (x : Setting) (t : Template) : Prop :=
  match x with
  | SetCatalogFile r => catalogFile t = r
  | SetContributionFile r => contributionFile t = r
  | SetOutputType o => outputType t = o
  | SetRegistry reg => registry t = reg
  | SetValidate b => validate t = b
  end.

(** The constructor [NewTemplate] registers for a schema, if any. *)
Definition defaultBuilder (schema : string) : option builderFunc :=
  if decide (schema = BasicBuilderSchema) then Some NewBasicBuilder
  else if decide (schema = SemverBuilderSchema) then Some NewSemverBuilder
  else if decide (schema = RawBuilderSchema) then Some NewRawBuilder
  else if decide (schema = CustomBuilderSchema) then Some NewCustomBuilder
  else None.

Definition is_validate_call (c : Call) : bool :=
  match c with
  | ValidateCall _ _ _ _ => true
  | _ => false
  end.

(** ** Properties *)

(** *** Strings *)

Lemma append_cons (x : ascii) (a b : string) :
  String x a +:+ b = String x (a +:+ b).
Proof. reflexivity. Qed.

Lemma append_assoc (a b c : string) : (a +:+ b) +:+ c = a +:+ (b +:+ c).
Proof.
  induction a as [|x a IH]; [done|]. by rewrite !append_cons, IH.
Qed.

Lemma append_nil_r (a : string) : a +:+ "" = a.
Proof. induction a as [|x a IH]; [done|]. by rewrite append_cons, IH. Qed.

Lemma occurs_in_refl (a : string) : occurs_in a a.
Proof. exists "", "". by rewrite append_nil_r. Qed.

Lemma occurs_in_app_l (a b c : string) : occurs_in a b → occurs_in a (c +:+ b).
Proof.
  intros (pre & post & ->). exists (c +:+ pre), post.
  by rewrite append_assoc.
Qed.

Lemma occurs_in_app_r (a b c : string) : occurs_in a b → occurs_in a (b +:+ c).
Proof.
  intros (pre & post & ->). exists pre, (post +:+ c).
  by rewrite !append_assoc.
Qed.

Lemma occurs_in_Join (x sep : string) (l : list string) :
  x ∈ l → occurs_in x (Join l sep).
Proof.
  induction l as [|y l IH]; [by intros ?%elem_of_nil|].
  intros [->|Hin]%elem_of_cons.
  - destruct l; simpl; [apply occurs_in_refl|].
    apply occurs_in_app_r, occurs_in_refl.
  - destruct l as [|z l]; [by apply elem_of_nil in Hin|].
    change (Join (y :: z :: l) sep) with (y +:+ sep +:+ Join (z :: l) sep).
    by apply occurs_in_app_l, occurs_in_app_l, IH.
Qed.

(** *** The monad *)

Lemma calls_since_app (s s' : State) (evs : list Call) :
  calls s' = calls s ++ evs → calls_since s s' = evs.
Proof. unfold calls_since. intros ->. by rewrite drop_app_length. Qed.

(** *** Builder resolution *)

Lemma builderForSchema_run t schema cfg s :
  builderForSchema t schema cfg s =
    match registeredBuilders t !! schema with
    | None => (inl (errorString ("unknown schema " +:+ quote schema)), s)
    | Some builderFunc' =>
        (inr (builderFunc' cfg),
         {| world := world s; calls := calls s ++ [NewBuilderCall schema cfg] |})
    end.
Proof. unfold builderForSchema. by destruct (registeredBuilders t !! schema). Qed.

(** What the inner loop returns, and what it leaves in the log. *)
Lemma newBuilderMap_run t name ot schemas bm s :
  ∃ evs,
    world (newBuilderMap t name ot schemas bm s).2 = world s ∧
    calls (newBuilderMap t name ot schemas bm s).2 = calls s ++ evs ∧
    Forall (λ ev, is_builder_call ev = false) evs ∧
    match (newBuilderMap t name ot schemas bm s).1 with
    | inr bm' =>
        Forall (λ k, is_Some (registeredBuilders t !! k)) schemas ∧
        ∀ k, bm' !! k =
             if decide (k ∈ schemas)
             then (λ f : builderFunc, f {| OutputType := ot |})
                    <$> registeredBuilders t !! k
             else bm !! k
    | inl e =>
        ∃ schema, schema ∈ schemas ∧ registeredBuilders t !! schema = None ∧
                  e = errorString (unknownSchemaMsg schema name)
    end.
Proof.
  revert bm s. induction schemas as [|schema rest IH]; intros bm s.
  - exists []. simpl. rewrite app_nil_r. split_and!; [done..|constructor|done].
  - cbn [newBuilderMap]. unfold bind, or_else. rewrite builderForSchema_run.
    destruct (registeredBuilders t !! schema) as [f|] eqn:Hreg; cbn.
    + destruct (IH (<[schema := f {| OutputType := ot |}]> bm)
                  {| world := world s;
                     calls := calls s ++ [NewBuilderCall schema {| OutputType := ot |}] |})
        as (evs & Hw & Hc & Hevs & Hres).
      exists (NewBuilderCall schema {| OutputType := ot |} :: evs).
      rewrite Hw, Hc. cbn. rewrite <- app_assoc. split_and!; [done..|by constructor|].
      destruct (newBuilderMap _ _ _ rest _ _).1 as [e|bm'].
      * destruct Hres as (sc & Hin & Hnone & ->).
        exists sc. split_and!; [by apply elem_of_cons; right | done..].
      * destruct Hres as [Hall Hlook]. split; [by constructor; [eexists|]|].
        intros k. rewrite Hlook.
        destruct (decide (k ∈ rest)) as [Hr|Hr],
                 (decide (k ∈ schema :: rest)) as [Hk|Hk]; try done.
        -- exfalso. apply Hk, elem_of_cons. by right.
        -- apply elem_of_cons in Hk as [->|?]; [|done].
           by rewrite lookup_insert_eq, Hreg.
        -- rewrite lookup_insert_ne; [done|].
           intros ->. apply Hk, elem_of_cons. by left.
    + exists []. rewrite app_nil_r. split_and!; [done..|constructor|].
      exists schema. split_and!; [apply elem_of_cons; by left | done..].
Qed.

(** *** Field validation and the outer loop *)

Ltac split4 := refine (conj _ (conj _ (conj _ _))).
Ltac split5 := refine (conj _ (conj _ (conj _ (conj _ _)))).

Lemma validateCatalog_cases catalog :
  validateCatalog catalog =
    if decide (workingDirEmpty catalog) then [workingDirMsg] else [].
Proof. unfold validateCatalog, workingDirEmpty. by case_decide. Qed.

(** The outer loop: what it returns and what it leaves in the log.  On
    failure the error is the unknown-schema error of a catalog that passed
    validation; on success the flag, the collected field errors and the matrix
    are described entry by entry. *)
Lemma setupCatalogs_run t ot catalogs st s :
  ∃ evs,
    world (setupCatalogs t ot catalogs st s).2 = world s ∧
    calls (setupCatalogs t ot catalogs st s).2 = calls s ++ evs ∧
    Forall (λ ev, is_builder_call ev = false) evs ∧
    match (setupCatalogs t ot catalogs st s).1 with
    | inl e =>
        ∃ c schema,
          c ∈ catalogs ∧ ¬ workingDirEmpty c ∧ schema ∈ Catalog.Builders c ∧
          registeredBuilders t !! schema = None ∧
          e = errorString (unknownSchemaMsg schema (Catalog.Name c))
    | inr st' =>
        (setupFailed st' = true ↔
           setupFailed st = true ∨ Exists workingDirEmpty catalogs) ∧
        (∀ name, setupErrors st !! name = Some [workingDirMsg] →
                 setupErrors st' !! name = Some [workingDirMsg]) ∧
        (∀ c, c ∈ catalogs → workingDirEmpty c →
              setupErrors st' !! Catalog.Name c = Some [workingDirMsg]) ∧
        (∀ name bm, catalogBuilderMap st !! name = Some bm →
                    catalogBuilderMap st' !! name = Some bm) ∧
        (∀ name, catalogBuilderMap st !! name = None →
           match firstValidNamed name catalogs with
           | Some c => ∃ bm, catalogBuilderMap st' !! name = Some bm ∧
                             builtFrom t ot (Catalog.Builders c) bm
           | None => catalogBuilderMap st' !! name = None
           end)
    end.
Proof.
  revert st s. induction catalogs as [|catalog rest IH]; intros st s.
  - exists []. cbn. rewrite app_nil_r.
    split4; [done..|constructor|]. split5; try done.
    + split; [by left|]. by intros [?|?%Exists_nil].
    + by intros c ?%elem_of_nil.
  - cbn [setupCatalogs]. rewrite validateCatalog_cases.
    unfold firstValidNamed. cbn [find].
    destruct (decide (workingDirEmpty catalog)) as [Hempty|Hvalid]; cbn.
    + (* the catalog fails validation *)
      set (st1 := {| catalogBuilderMap := catalogBuilderMap st;
                     setupFailed := true;
                     setupErrors := <[Catalog.Name catalog := [workingDirMsg]]>
                                      (setupErrors st) |}).
      destruct (IH st1 s) as (evs & Hw & Hc & Hevs & Hres).
      exists evs. split4; try done.
      destruct (setupCatalogs t ot rest st1 s).1 as [e|st'].
      * destruct Hres as (c & schema & Hin & ?).
        exists c, schema. split; [by apply elem_of_cons; right | done].
      * destruct Hres as (Hfail & Herr & Herrs & Hkeep & Hfirst).
        split5.
        -- split; [intros _; right; by constructor|].
           intros _. apply Hfail. by left.
        -- intros name Hname. apply Herr. subst st1. cbn.
           destruct (decide (Catalog.Name catalog = name)) as [->|?];
             [by rewrite lookup_insert_eq | by rewrite lookup_insert_ne].
        -- intros c [->|Hin]%elem_of_cons Hc'; [|by apply Herrs].
           apply Herr. subst st1. cbn. by rewrite lookup_insert_eq.
        -- apply Hkeep.
        -- intros name Hname.
           rewrite (bool_decide_eq_true_2 _ Hempty), andb_false_r.
           by apply Hfirst.
    + (* the catalog passes validation *)
      destruct (catalogBuilderMap st !! Catalog.Name catalog) as [bm0|] eqn:Hold.
      * (* its name is already in the matrix: skipped *)
        destruct (IH st s) as (evs & Hw & Hc & Hevs & Hres).
        exists evs. split4; try done.
        destruct (setupCatalogs t ot rest st s).1 as [e|st'].
        -- destruct Hres as (c & schema & Hin & ?).
           exists c, schema. split; [by apply elem_of_cons; right | done].
        -- destruct Hres as (Hfail & Herr & Herrs & Hkeep & Hfirst).
           split5; try done.
           ++ rewrite Hfail. split; (intros [?|H]; [by left|right]).
              ** by apply Exists_cons_tl.
              ** by apply Exists_cons in H as [?|?].
           ++ intros c [->|Hin]%elem_of_cons Hc'; [done | by apply Herrs].
           ++ intros name Hname.
              rewrite bool_decide_eq_false_2 by congruence.
              by apply Hfirst.
      * (* a new name: build its builders, then record them *)
        unfold bind.
        destruct (newBuilderMap_run t (Catalog.Name catalog) ot
                    (Catalog.Builders catalog) ∅ s)
          as (evs1 & Hw1 & Hc1 & Hevs1 & Hres1).
        destruct (newBuilderMap t (Catalog.Name catalog) ot
                    (Catalog.Builders catalog) ∅ s) as [[e|bm] s1] eqn:Hrun;
          cbn in Hw1, Hc1, Hres1.
        -- exists evs1. split4; try done.
           destruct Hres1 as (schema & Hin & Hnone & ->).
           exists catalog, schema. split_and!; try done.
           apply elem_of_cons; by left.
        -- set (st1 := {| catalogBuilderMap :=
                            <[Catalog.Name catalog := bm]> (catalogBuilderMap st);
                          setupFailed := setupFailed st;
                          setupErrors := setupErrors st |}).
           destruct (IH st1 s1) as (evs & Hw & Hc & Hevs & Hres).
           exists (evs1 ++ evs). split4.
           ++ by rewrite Hw.
           ++ by rewrite Hc, Hc1, app_assoc.
           ++ by apply Forall_app.
           ++ destruct (setupCatalogs t ot rest st1 s1).1 as [e|st'].
              ** destruct Hres as (c & schema & Hin & ?).
                 exists c, schema. split; [by apply elem_of_cons; right | done].
              ** destruct Hres as (Hfail & Herr & Herrs & Hkeep & Hfirst).
                 destruct Hres1 as [_ Hbm].
                 split5; try done.
                 --- rewrite Hfail. subst st1; cbn.
                     split; (intros [?|H]; [by left|right]).
                     +++ by apply Exists_cons_tl.
                     +++ by apply Exists_cons in H as [?|?].
                 --- intros c [->|Hin]%elem_of_cons Hc'; [done | by apply Herrs].
                 --- intros name bm1 Hname. apply Hkeep. subst st1; cbn.
                     rewrite lookup_insert_ne; [done|]. congruence.
                 --- intros name Hname.
                     destruct (decide (Catalog.Name catalog = name)) as [Heq|Hne].
                     +++ rewrite (bool_decide_eq_true_2 _ Heq).
                         rewrite (bool_decide_eq_false_2 _ Hvalid). cbn.
                         exists bm. split.
                         *** apply Hkeep. subst st1 name; cbn.
                             by rewrite lookup_insert_eq.
                         *** intros k. rewrite Hbm. by rewrite lookup_empty.
                     +++ rewrite (bool_decide_eq_false_2 _ Hne). cbn.
                         apply Hfirst. subst st1; cbn.
                         by rewrite lookup_insert_ne.
Qed.

Lemma firstValidNamed_all_valid name catalogs :
  Forall (λ c, ¬ workingDirEmpty c) catalogs →
  firstValidNamed name catalogs = firstCatalogNamed name catalogs.
Proof.
  unfold firstValidNamed, firstCatalogNamed.
  induction 1 as [|c rest Hc _ IH]; [done|]. cbn.
  rewrite (bool_decide_eq_false_2 _ Hc), andb_true_r. by rewrite IH.
Qed.

Lemma firstCatalogNamed_Some name catalogs c :
  firstCatalogNamed name catalogs = Some c →
  c ∈ catalogs ∧ Catalog.Name c = name.
Proof.
  unfold firstCatalogNamed. intros H.
  split; [by apply list_elem_of_In, (find_some _ _ H)|].
  apply find_some in H as [_ H]. by apply bool_decide_eq_true in H.
Qed.

(** Appending to an accumulator commutes with the prefix already there. *)
Lemma foldl_append {A} (g : A → string) (acc : string) (l : list A) :
  foldl (λ msg x, msg +:+ g x) acc l = acc +:+ foldl (λ msg x, msg +:+ g x) "" l.
Proof.
  revert acc. induction l as [|x l IH]; intros acc; cbn [foldl].
  - by rewrite append_nil_r.
  - rewrite (IH (acc +:+ g x)), (IH ("" +:+ g x)). by rewrite append_assoc.
Qed.

Lemma appendCatalogErrs_acc errMsg entry :
  appendCatalogErrs errMsg entry = errMsg +:+ appendCatalogErrs "" entry.
Proof.
  destruct entry as [cat errs]. unfold appendCatalogErrs.
  rewrite (foldl_append _ (errMsg +:+ _)), (foldl_append _ ("" +:+ _)).
  by rewrite !append_assoc.
Qed.

(** The block of a catalog with the one field error. *)
Lemma catalog_block (cat err : string) :
  appendCatalogErrs "" (cat, [err])
    = newline +:+ "Catalog " +:+ cat +:+ ":" +:+ newline
        +:+ "  - " +:+ err +:+ newline.
Proof.
  unfold appendCatalogErrs. cbn [foldl].
  change ("" +:+ ?x) with x. by rewrite !append_assoc.
Qed.

(** The text of the aggregated error contains the block of every entry the
    range statement visits. *)
Lemma setupErrMsg_occurs entry entries :
  entry ∈ entries →
  occurs_in (appendCatalogErrs "" entry) (setupErrMsg entries).
Proof.
  unfold setupErrMsg. generalize "" at 2 as acc.
  induction entries as [|e rest IH]; intros acc; [by intros ?%elem_of_nil|].
  intros [->|Hin]%elem_of_cons; cbn [foldl]; [|by apply IH].
  clear IH.
  assert (∀ acc, occurs_in (appendCatalogErrs "" e) acc →
                 occurs_in (appendCatalogErrs "" e)
                   (foldl appendCatalogErrs acc rest)) as Hkeep.
  { induction rest as [|e' rest IH]; intros acc' Hacc; [done|].
    cbn [foldl]. apply IH. rewrite (appendCatalogErrs_acc acc' e').
    by apply occurs_in_app_r. }
  apply Hkeep. rewrite (appendCatalogErrs_acc acc e).
  apply occurs_in_app_l, occurs_in_refl.
Qed.

(** What [newCatalogBuilderMap] returns, and what it leaves in the log: only
    constructor calls, and the world as it was. *)
Lemma newCatalogBuilderMap_run t catalogs ot s :
  ∃ evs,
    world (newCatalogBuilderMap t catalogs ot s).2 = world s ∧
    calls (newCatalogBuilderMap t catalogs ot s).2 = calls s ++ evs ∧
    Forall (λ ev, is_builder_call ev = false) evs ∧
    match (newCatalogBuilderMap t catalogs ot s).1 with
    | inl e =>
        (∃ c schema,
           c ∈ catalogs ∧ ¬ workingDirEmpty c ∧ schema ∈ Catalog.Builders c ∧
           registeredBuilders t !! schema = None ∧
           e = errorString (unknownSchemaMsg schema (Catalog.Name c)))
        ∨ (Exists workingDirEmpty catalogs ∧
           ∃ errs : gmap string (list string),
             (∀ c, c ∈ catalogs → workingDirEmpty c →
                   errs !! Catalog.Name c = Some [workingDirMsg]) ∧
             e = errorString (validationFailedMsg (setupErrMsg (range R errs))))
    | inr cbm =>
        Forall (λ c, ¬ workingDirEmpty c) catalogs ∧
        ∀ name,
          match firstCatalogNamed name catalogs with
          | Some c => ∃ bm, cbm !! name = Some bm ∧
                            builtFrom t ot (Catalog.Builders c) bm
          | None => cbm !! name = None
          end
    end.
Proof.
  unfold newCatalogBuilderMap, bind.
  set (st0 := {| catalogBuilderMap := ∅; setupFailed := false; setupErrors := ∅ |}).
  destruct (setupCatalogs_run t ot catalogs st0 s) as (evs & Hw & Hc & Hevs & Hres).
  exists evs.
  destruct (setupCatalogs t ot catalogs st0 s) as [[e|st'] s1]; cbn in *.
  { split4; try done. by left. }
  destruct Hres as (Hfail & _ & Herrs & _ & Hfirst).
  destruct (setupFailed st') eqn:Hflag; cbn.
  - split4; try done. right.
    destruct Hfail as [[?|?] _]; [done..|]. split; [done|].
    by exists (setupErrors st').
  - assert (Forall (λ c, ¬ workingDirEmpty c) catalogs) as Hvalid.
    { apply Forall_forall. intros c Hin Hemp.
      destruct Hfail as [_ Hfail]. discriminate Hfail.
      right. apply Exists_exists. eauto. }
    split4; try done. split; [done|].
    intros name. rewrite <- (firstValidNamed_all_valid name catalogs Hvalid).
    by apply Hfirst.
Qed.

(** *** The loop over components *)

(** The loop body, case by case. *)
Lemma renderComponent_run t ctx v cbm component s :
  let name := Component.Name component in
  let template := Strategy.Template (Component.Strategy component) in
  let schema := TemplateDefinition.Schema template in
  let path := ComponentDestination.Path (Component.Destination component) in
  renderComponent t ctx v cbm component s =
    match cbm !! name with
    | None => (inl (errorString (unknownCatalogMsg name (range R cbm).*1)), s)
    | Some bm =>
        match bm !! schema with
        | None => (inl (errorString (noBuilderMsg name schema)), s)
        | Some b =>
            match Build b ctx (registry t) path template (world s) with
            | (Some e, w) =>
                let c := BuildCall name path template (Some e) in
                (inl (componentFailure c name e),
                 {| world := w; calls := calls s ++ [c] |})
            | (None, w) =>
                if v then
                  match Validate b ctx path w with
                  | (Some e, w') =>
                      let c := ValidateCall name schema path (Some e) in
                      (inl (componentFailure c name e),
                       {| world := w';
                          calls := calls s ++ [BuildCall name path template None; c] |})
                  | (None, w') =>
                      (inr tt, {| world := w';
                                  calls := calls s ++ componentCalls v component |})
                  end
                else (inr tt, {| world := w;
                                 calls := calls s ++ componentCalls v component |})
            end
        end
    end.
Proof.
  intros name template schema path. unfold renderComponent.
  fold name template path schema.
  destruct (cbm !! name) as [bm|]; [|done].
  destruct (bm !! schema) as [b|]; [|done].
  unfold bind, call_Build, call_Validate, componentCalls.
  fold name template path schema.
  destruct (Build b ctx (registry t) path template (world s)) as [[e|] w]; [done|].
  destruct v; [|done]. cbn.
  destruct (Validate b ctx path w) as [[e|] w']; cbn; by rewrite <- app_assoc.
Qed.

(** The loop over a concatenation: the second part runs only if the first
    went through. *)
Lemma renderComponents_app t ctx v cbm pre rest s :
  renderComponents t ctx v cbm (pre ++ rest) s =
    match renderComponents t ctx v cbm pre s with
    | (inl e, s') => (inl e, s')
    | (inr _, s') => renderComponents t ctx v cbm rest s'
    end.
Proof.
  revert s. induction pre as [|c pre IH]; intros s; [done|].
  cbn [app renderComponents]. unfold bind.
  destruct (renderComponent t ctx v cbm c s) as [[e|[]] s']; [done|]. apply IH.
Qed.

Lemma Forall_nofail_snoc (good : list Call) ev evs1 ev' evs2 e :
  Forall (λ c, Call_failure c = None) good →
  good ++ [ev] = evs1 ++ ev' :: evs2 →
  Call_failure ev' = Some e →
  evs1 = good ∧ ev' = ev ∧ evs2 = [].
Proof.
  intros Hgood. revert evs1.
  induction Hgood as [|g good Hg _ IH]; intros evs1 Heq Hfail.
  - destruct evs1 as [|x evs1]; simplify_eq/=; [done|].
    by destruct evs1.
  - destruct evs1 as [|x evs1]; simplify_eq/=.
    destruct (IH evs1) as (-> & -> & ->); done.
Qed.

(** The calls of the loop: they all go to builders of the matrix, and at
    most the last one failed, in which case its error, wrapped, is the
    result. *)
Lemma renderComponents_calls t ctx v cbm components s :
  ∃ evs,
    calls (renderComponents t ctx v cbm components s).2 = calls s ++ evs ∧
    Forall (λ ev, is_builder_call ev = true) evs ∧
    Forall (callResolves cbm) evs ∧
    (Forall (λ ev, Call_failure ev = None) evs
     ∨ ∃ good ev e name,
         evs = good ++ [ev] ∧ Forall (λ ev, Call_failure ev = None) good ∧
         Call_failure ev = Some e ∧ Call_component ev = Some name ∧
         (renderComponents t ctx v cbm components s).1
           = inl (componentFailure ev name e)).
Proof.
  revert s. induction components as [|c rest IH]; intros s.
  { exists []. cbn. rewrite app_nil_r. split4; [done|constructor..|by left]. }
  cbn [renderComponents]. unfold bind.
  pose proof (renderComponent_run t ctx v cbm c s) as Hrun. cbn zeta in Hrun.
  set (name := Component.Name c) in *.
  set (template := Strategy.Template (Component.Strategy c)) in *.
  set (schema := TemplateDefinition.Schema template) in *.
  set (path := ComponentDestination.Path (Component.Destination c)) in *.
  rewrite Hrun. clear Hrun.
  destruct (cbm !! name) as [bm|] eqn:Hbm;
    [|exists []; cbn; rewrite app_nil_r; split4; [done|constructor..|by left]].
  destruct (bm !! schema) as [b|] eqn:Hb;
    [|exists []; cbn; rewrite app_nil_r; split4; [done|constructor..|by left]].
  assert (resolves cbm name schema) as Hres by (by exists bm, b).
  assert (∀ r, callResolves cbm (BuildCall name path template r)) as HresB.
  { intros r. by exists name, schema. }
  assert (∀ r, callResolves cbm (ValidateCall name schema path r)) as HresV.
  { intros r. by exists name, schema. }
  destruct (Build b ctx (registry t) path template (world s)) as [[e|] w].
  { eexists [_]. cbn. split4; [done|by repeat constructor..|].
    right. exists [], (BuildCall name path template (Some e)), e, name.
    split_and!; try done. }
  assert (∀ w',
    let s' := {| world := w'; calls := calls s ++ componentCalls v c |} in
    ∃ evs,
      calls (renderComponents t ctx v cbm rest s').2 = calls s ++ evs ∧
      Forall (λ ev, is_builder_call ev = true) evs ∧
      Forall (callResolves cbm) evs ∧
      (Forall (λ ev, Call_failure ev = None) evs
       ∨ ∃ good ev e name,
           evs = good ++ [ev] ∧ Forall (λ ev, Call_failure ev = None) good ∧
           Call_failure ev = Some e ∧ Call_component ev = Some name ∧
           (renderComponents t ctx v cbm rest s').1
             = inl (componentFailure ev name e))) as Hnext.
  { intros w' s'. destruct (IH s') as (evs & Hc & Hb' & Hr & Hshape).
    assert (Forall (λ ev, Call_failure ev = None) (componentCalls v c)) as Hclean.
    { unfold componentCalls. destruct v; repeat constructor. }
    exists (componentCalls v c ++ evs). split4.
    - by rewrite Hc, app_assoc.
    - apply Forall_app. split; [|done].
      unfold componentCalls. destruct v; repeat constructor.
    - apply Forall_app. split; [|done].
      unfold componentCalls. fold name template schema path.
      destruct v; repeat constructor; done.
    - destruct Hshape as [Hall|(good & ev & e & n & -> & Hgood & Hev & Hn & Hr')].
      + left. by apply Forall_app.
      + right. exists (componentCalls v c ++ good), ev, e, n.
        split_and!; try done; [by rewrite app_assoc | by apply Forall_app]. }
  destruct v; [|apply Hnext].
  destruct (Validate b ctx path w) as [[e|] w']; [|apply Hnext].
  eexists [_; _]. cbn. split4; [done|by repeat constructor..|].
  right. exists [BuildCall name path template None],
    (ValidateCall name schema path (Some e)), e, name.
  split_and!; try done. by repeat constructor.
Qed.

(** The log of the loop, in full: the calls of the components that went
    through, in order, and then either nothing more (all went through, or the
    next component does not resolve) or the failing call of the component at
    which the loop stops. *)
Lemma renderComponents_trace t ctx v cbm components s :
  ((renderComponents t ctx v cbm components s).1 = inr tt ∧
   calls (renderComponents t ctx v cbm components s).2
     = calls s ++ flat_map (componentCalls v) components)
  ∨ ∃ pre component post tail,
      components = pre ++ component :: post ∧
      calls (renderComponents t ctx v cbm components s).2
        = calls s ++ flat_map (componentCalls v) pre ++ tail ∧
      ((¬ componentResolves cbm component ∧ tail = [] ∧
        is_err (renderComponents t ctx v cbm components s).1 = true)
       ∨ ∃ inValidate e ev,
           (inValidate = true → v = true) ∧
           tail = failingCalls component inValidate e ∧
           last tail = Some ev ∧
           (renderComponents t ctx v cbm components s).1
             = inl (componentFailure ev (Component.Name component) e)).
Proof.
  revert s. induction components as [|c rest IH]; intros s.
  { left. cbn. by rewrite app_nil_r. }
  cbn [renderComponents]. unfold bind.
  pose proof (renderComponent_run t ctx v cbm c s) as Hrun. cbn zeta in Hrun.
  rewrite Hrun. clear Hrun.
  assert (∀ w',
    let s' := {| world := w'; calls := calls s ++ componentCalls v c |} in
    ((renderComponents t ctx v cbm rest s').1 = inr tt ∧
     calls (renderComponents t ctx v cbm rest s').2
       = calls s ++ flat_map (componentCalls v) (c :: rest))
    ∨ ∃ pre component post tail,
        c :: rest = pre ++ component :: post ∧
        calls (renderComponents t ctx v cbm rest s').2
          = calls s ++ flat_map (componentCalls v) pre ++ tail ∧
        ((¬ componentResolves cbm component ∧ tail = [] ∧
          is_err (renderComponents t ctx v cbm rest s').1 = true)
         ∨ ∃ inValidate e ev,
             (inValidate = true → v = true) ∧
             tail = failingCalls component inValidate e ∧
             last tail = Some ev ∧
             (renderComponents t ctx v cbm rest s').1
               = inl (componentFailure ev (Component.Name component) e)))
    as Hnext.
  { intros w' s'.
    destruct (IH s') as [[Hr Hc]|(pre & c' & post & tail & -> & Hc & Hcase)].
    - left. split; [done|]. rewrite Hc. subst s'. cbn [calls flat_map].
      by rewrite <- app_assoc.
    - right. exists (c :: pre), c', post, tail. split; [done|].
      split; [|done]. rewrite Hc. subst s'. cbn [calls flat_map].
      by rewrite <- !app_assoc. }
  destruct (cbm !! Component.Name c) as [bm|] eqn:Hbm.
  2:{ right. exists [], c, rest, []. cbn. rewrite app_nil_r.
      split_and!; try done. left. split_and!; try done.
      intros (bm & b & Hbm' & _). congruence. }
  destruct (bm !! _) as [b|] eqn:Hb.
  2:{ right. exists [], c, rest, []. cbn. rewrite app_nil_r.
      split_and!; try done. left. split_and!; try done.
      intros (bm' & b & Hbm' & Hb'). congruence. }
  destruct (Build b _ _ _ _ _) as [[e|] w].
  { right. exists [], c, rest, (failingCalls c false e). cbn.
    split_and!; try done. right.
    eexists false, e, _. split_and!; [done | done | reflexivity | done]. }
  destruct v; [|apply Hnext].
  destruct (Validate b _ _ _) as [[e|] w']; [|apply Hnext].
  right. exists [], c, rest, (failingCalls c true e). cbn.
  split_and!; try done. right.
  eexists true, e, _. split_and!; [done | done | reflexivity | done].
Qed.

(** When every component resolves, the calls of the loop are those of the
    components in order, as long as none of them fails. *)
Lemma renderComponents_clean t ctx v cbm components s :
  Forall (componentResolves cbm) components →
  ∃ evs,
    calls (renderComponents t ctx v cbm components s).2 = calls s ++ evs ∧
    (Forall (λ ev, Call_failure ev = None) evs →
     (renderComponents t ctx v cbm components s).1 = inr tt ∧
     evs = flat_map (componentCalls v) components).
Proof.
  intros Hall. revert s.
  induction Hall as [|c rest (bm & b & Hbm & Hb) _ IH]; intros s.
  { exists []. cbn. by rewrite app_nil_r. }
  cbn [renderComponents flat_map]. unfold bind.
  pose proof (renderComponent_run t ctx v cbm c s) as Hrun. cbn zeta in Hrun.
  rewrite Hrun, Hbm, Hb. clear Hrun.
  assert (∀ w',
    let s' := {| world := w'; calls := calls s ++ componentCalls v c |} in
    ∃ evs,
      calls (renderComponents t ctx v cbm rest s').2 = calls s ++ evs ∧
      (Forall (λ ev, Call_failure ev = None) evs →
       (renderComponents t ctx v cbm rest s').1 = inr tt ∧
       evs = componentCalls v c ++ flat_map (componentCalls v) rest)) as Hnext.
  { intros w' s'. destruct (IH s') as (evs & Hc & Hclean).
    exists (componentCalls v c ++ evs). split; [by rewrite Hc, app_assoc|].
    intros [_ Hevs]%Forall_app. destruct (Hclean Hevs) as [-> ->]. done. }
  destruct (Build b _ _ _ _ _) as [[e|] w].
  { eexists [_]. split; [done|]. by intros H%Forall_inv. }
  destruct v; [|apply Hnext].
  destruct (Validate b _ _ _) as [[e|] w']; [|apply Hnext].
  eexists [_; _]. split; [done|]. by intros H%Forall_inv_tail%Forall_inv.
Qed.

(** *** Render as a whole *)

Lemma Render_parsed t ctx v s catalogFile' contributionFile' :
  parseCatalogsSpec t = inr catalogFile' →
  parseContributionSpec t = inr contributionFile' →
  Render t ctx v s =
    match newCatalogBuilderMap t (CatalogConfig.Catalogs catalogFile')
            (outputType t) s with
    | (inl e, s') => (inl e, s')
    | (inr cbm, s') =>
        renderComponents t ctx v cbm
          (CompositeConfig.Components contributionFile') s'
    end.
Proof. intros Hcat Hcomp. unfold Render, bind, of_result. by rewrite Hcat, Hcomp. Qed.

Lemma Render_assembled t ctx v s catalogFile' contributionFile' cbm s0 :
  parseCatalogsSpec t = inr catalogFile' →
  parseContributionSpec t = inr contributionFile' →
  newCatalogBuilderMap t (CatalogConfig.Catalogs catalogFile') (outputType t) s
    = (inr cbm, s0) →
  Render t ctx v s =
    renderComponents t ctx v cbm (CompositeConfig.Components contributionFile') s0.
Proof.
  intros Hcat Hcomp Hcbm. by rewrite (Render_parsed _ _ _ _ _ _ Hcat Hcomp), Hcbm.
Qed.

(** A parse failure ends [Render] on the spot: the error is returned and the
    state is the one [Render] started in. *)
Lemma Render_parse_failure t ctx v s :
  (∀ e, parseCatalogsSpec t = inl e → Render t ctx v s = (inl e, s)) ∧
  (∀ e, parseContributionSpec t = inl e →
        ∃ e', Render t ctx v s = (inl e', s) ∧
              (is_err (parseCatalogsSpec t) = false → e' = e)).
Proof.
  split; intros e He; unfold Render, bind, of_result; rewrite He; [done|].
  destruct (parseCatalogsSpec t) as [e'|cat]; [by exists e' | by exists e].
Qed.

(** The log only grows during [Render]. *)
Lemma Render_calls t ctx v s :
  ∃ evs, calls (Render t ctx v s).2 = calls s ++ evs.
Proof.
  unfold Render, bind, of_result.
  destruct (parseCatalogsSpec t) as [e|cat]; [exists []; by rewrite app_nil_r|].
  destruct (parseContributionSpec t) as [e|comp];
    [exists []; by rewrite app_nil_r|].
  destruct (newCatalogBuilderMap_run t (CatalogConfig.Catalogs cat) (outputType t) s)
    as (news & _ & Hc & _).
  destruct (newCatalogBuilderMap _ _ _ _) as [[e|cbm] s0]; [by exists news|].
  destruct (renderComponents_calls t ctx v cbm (CompositeConfig.Components comp) s0)
    as (evs & Hc' & _).
  exists (news ++ evs). cbn in Hc. by rewrite Hc', Hc, app_assoc.
Qed.

(** *** The catalog/builder matrix: specification *)

(** C1 (as amended).  Field validation and builder resolution are interleaved
    in one pass over the catalogs.  When at least one catalog has an empty
    [workingDir], [newCatalogBuilderMap] always fails: with the aggregated
    validation error, or with the unknown-schema error of a catalog that passed
    validation and declares a schema without a registered constructor.  It is
    the aggregated validation error whenever every schema declared by the
    catalogs that pass validation is registered. *)
Theorem newCatalogBuilderMap_fails_on_empty_workingDir t catalogs ot s :
  Exists workingDirEmpty catalogs →
  ((∃ errMsg, (newCatalogBuilderMap t catalogs ot s).1
                = inl (errorString (validationFailedMsg errMsg)))
   ∨ (∃ c schema,
        c ∈ catalogs ∧ ¬ workingDirEmpty c ∧ schema ∈ Catalog.Builders c ∧
        registeredBuilders t !! schema = None ∧
        (newCatalogBuilderMap t catalogs ot s).1
          = inl (errorString (unknownSchemaMsg schema (Catalog.Name c)))))
  ∧ (Forall (λ c, ¬ workingDirEmpty c → buildersRegistered t c) catalogs →
     ∃ errMsg, (newCatalogBuilderMap t catalogs ot s).1
                 = inl (errorString (validationFailedMsg errMsg))).
Proof.
  intros Hex.
  destruct (newCatalogBuilderMap_run t catalogs ot s) as (evs & _ & _ & _ & Hres).
  destruct (newCatalogBuilderMap t catalogs ot s).1 as [e|cbm].
  - destruct Hres as [(c & schema & Hin & Hvalid & Hsch & Hnone & ->)
                     |(_ & errs & _ & ->)].
    + split; [right; by exists c, schema|].
      intros Hreg. exfalso.
      apply (proj1 (Forall_forall _ _) Hreg c Hin) in Hvalid.
      apply (proj1 (Forall_forall _ _) Hvalid schema) in Hsch.
      rewrite Hnone in Hsch. by destruct Hsch.
    + split; [left|intros _]; by eexists.
  - destruct Hres as [Hvalid _]. exfalso.
    apply Exists_exists in Hex as (c & Hin & Hemp).
    by apply (proj1 (Forall_forall _ _) Hvalid c Hin).
Qed.

(** C2 (as amended).  For every catalog sequence with one or more catalogs
    whose [workingDir] is empty, and in which every schema declared by a
    catalog that passes validation is registered, [newCatalogBuilderMap] fails
    with the aggregated validation error, and the message holds, for every
    such catalog, its name followed by the field error. *)
Theorem newCatalogBuilderMap_reports_every_invalid_catalog t catalogs ot s :
  Exists workingDirEmpty catalogs →
  Forall (λ c, ¬ workingDirEmpty c → buildersRegistered t c) catalogs →
  ∃ errMsg,
    (newCatalogBuilderMap t catalogs ot s).1
      = inl (errorString (validationFailedMsg errMsg)) ∧
    ∀ c, c ∈ catalogs → workingDirEmpty c →
         occurs_in (newline +:+ "Catalog " +:+ Catalog.Name c +:+ ":" +:+ newline
                      +:+ "  - " +:+ workingDirMsg +:+ newline)
                   errMsg.
Proof.
  intros Hex Hreg.
  destruct (newCatalogBuilderMap_run t catalogs ot s) as (evs & _ & _ & _ & Hres).
  destruct (newCatalogBuilderMap t catalogs ot s).1 as [e|cbm].
  - destruct Hres as [(c & schema & Hin & Hvalid & Hsch & Hnone & ->)
                     |(_ & errs & Herrs & ->)].
    + exfalso.
      apply (proj1 (Forall_forall _ _) Hreg c Hin) in Hvalid.
      apply (proj1 (Forall_forall _ _) Hvalid schema) in Hsch.
      rewrite Hnone in Hsch. by destruct Hsch.
    + eexists. split; [done|]. intros c Hin Hemp.
      rewrite <- catalog_block.
      apply (setupErrMsg_occurs (Catalog.Name c, [workingDirMsg])).
      rewrite (range_perm R). apply elem_of_map_to_list. by apply Herrs.
  - destruct Hres as [Hvalid _]. exfalso.
    apply Exists_exists in Hex as (c & Hin & Hemp).
    by apply (proj1 (Forall_forall _ _) Hvalid c Hin).
Qed.

(** Inside the loop, an entry of the matrix is never replaced: whatever the
    catalogs still to come, the builders recorded under a name stay. *)
Lemma setupCatalogs_keeps_entries t ot catalogs st s st' name bm :
  (setupCatalogs t ot catalogs st s).1 = inr st' →
  catalogBuilderMap st !! name = Some bm →
  catalogBuilderMap st' !! name = Some bm.
Proof.
  intros Hrun Hbm.
  destruct (setupCatalogs_run t ot catalogs st s) as (evs & _ & _ & _ & Hres).
  rewrite Hrun in Hres. destruct Hres as (_ & _ & _ & Hkeep & _). by apply Hkeep.
Qed.

(** On success the matrix is given, name by name, by the first catalog
    carrying the name. *)
Lemma newCatalogBuilderMap_lookup t catalogs ot s cbm name c :
  (newCatalogBuilderMap t catalogs ot s).1 = inr cbm →
  firstCatalogNamed name catalogs = Some c →
  ∃ bm, cbm !! name = Some bm ∧ builtFrom t ot (Catalog.Builders c) bm.
Proof.
  intros Hrun Hfirst.
  destruct (newCatalogBuilderMap_run t catalogs ot s) as (evs & _ & _ & _ & Hres).
  rewrite Hrun in Hres. destruct Hres as [_ Hlook].
  specialize (Hlook name). by rewrite Hfirst in Hlook.
Qed.

(** C5.  When [newCatalogBuilderMap] succeeds, the entry of the matrix under
    a name is the one built from the first catalog of the sequence carrying
    that name: one builder per schema that catalog declares, and nothing
    else, whatever later catalogs of the same name declare. *)
Theorem newCatalogBuilderMap_first_occurrence_wins t catalogs ot s cbm name c :
  (newCatalogBuilderMap t catalogs ot s).1 = inr cbm →
  firstCatalogNamed name catalogs = Some c →
  ∃ bm, cbm !! name = Some bm ∧ builtFrom t ot (Catalog.Builders c) bm.
Proof. apply newCatalogBuilderMap_lookup. Qed.

(** *** Render: specification *)

(** The assembly succeeds when every catalog passes validation and declares
    registered schemas only. *)
Lemma assembly_succeeds t catalogs ot s :
  Forall (λ c, ¬ workingDirEmpty c) catalogs →
  Forall (buildersRegistered t) catalogs →
  ∃ cbm, (newCatalogBuilderMap t catalogs ot s).1 = inr cbm.
Proof.
  intros Hvalid Hreg.
  destruct (newCatalogBuilderMap_run t catalogs ot s) as (evs & _ & _ & _ & Hres).
  destruct (newCatalogBuilderMap t catalogs ot s).1 as [e|cbm]; [exfalso|by exists cbm].
  destruct Hres as [(c' & schema & Hin & _ & Hsch & Hnone & _)|(Hex & _)].
  - apply (proj1 (Forall_forall _ _) Hreg c') in Hin.
    apply (proj1 (Forall_forall _ _) Hin schema) in Hsch.
    rewrite Hnone in Hsch. by destruct Hsch.
  - apply Exists_exists in Hex as (c' & Hin & Hemp).
    by apply (proj1 (Forall_forall _ _) Hvalid c' Hin).
Qed.

(** The assembled matrix resolves every component that names a catalog of
    the sequence and a schema its first definition declares. *)
Lemma assembled_matrix_resolves t catalogs ot s cbm component :
  (newCatalogBuilderMap t catalogs ot s).1 = inr cbm →
  Forall (buildersRegistered t) catalogs →
  (∃ c, firstCatalogNamed (Component.Name component) catalogs = Some c ∧
        TemplateDefinition.Schema (Strategy.Template (Component.Strategy component))
          ∈ Catalog.Builders c) →
  componentResolves cbm component.
Proof.
  intros Hrun Hreg (c & Hfirst & Hschema).
  destruct (newCatalogBuilderMap_lookup t catalogs ot s cbm _ c
              Hrun Hfirst) as (bm & Hbm & Hbuilt).
  apply firstCatalogNamed_Some in Hfirst as [Hin _].
  apply (proj1 (Forall_forall _ _) Hreg c) in Hin.
  apply (proj1 (Forall_forall _ _) Hin _) in Hschema as Hsome.
  destruct Hsome as [f Hf].
  exists bm, (f {| OutputType := ot |}). split; [done|].
  rewrite Hbuilt, decide_True by done. by rewrite Hf.
Qed.

(** C3 (as amended).  For Catalog and Composite documents that parse with the
    expected schemas, whose catalogs all have a working directory and declare
    registered schemas only, and whose components each name a catalog of the
    document and a schema that catalog (its first definition) declares:
    provided no [Build] or [Validate] call of the run returns an error,
    [Render] succeeds, and after the constructor calls of the assembly the
    calls are exactly one [Build] per component, in document order, each
    followed, when validation is requested, by the [Validate] of the same
    component. *)
Theorem Render_builds_each_component_in_order
    t ctx v s catalogFile' contributionFile' :
  parseCatalogsSpec t = inr catalogFile' →
  parseContributionSpec t = inr contributionFile' →
  Forall (λ c, ¬ workingDirEmpty c) (CatalogConfig.Catalogs catalogFile') →
  Forall (buildersRegistered t) (CatalogConfig.Catalogs catalogFile') →
  Forall (λ component,
            ∃ c, firstCatalogNamed (Component.Name component)
                   (CatalogConfig.Catalogs catalogFile') = Some c ∧
                 TemplateDefinition.Schema
                   (Strategy.Template (Component.Strategy component))
                   ∈ Catalog.Builders c)
         (CompositeConfig.Components contributionFile') →
  Forall (λ ev, Call_failure ev = None) (calls_since s (Render t ctx v s).2) →
  (Render t ctx v s).1 = inr tt ∧
  ∃ news,
    Forall (λ ev, is_builder_call ev = false) news ∧
    calls_since s (Render t ctx v s).2
      = news ++ flat_map (componentCalls v)
                         (CompositeConfig.Components contributionFile').
Proof.
  intros Hcat Hcomp Hvalid Hreg Hrefs.
  set (catalogs := CatalogConfig.Catalogs catalogFile') in *.
  set (components := CompositeConfig.Components contributionFile') in *.
  rewrite (Render_parsed _ ctx v s _ _ Hcat Hcomp). fold catalogs components.
  destruct (newCatalogBuilderMap_run t catalogs (outputType t) s)
    as (news & _ & Hnews & Hctor & _).
  destruct (assembly_succeeds t catalogs (outputType t) s Hvalid Hreg)
    as (cbm & Hcbm).
  assert (Forall (componentResolves cbm) components) as Hres.
  { eapply Forall_impl; [exact Hrefs|]. intros c Hc.
    by eapply assembled_matrix_resolves. }
  destruct (newCatalogBuilderMap t catalogs (outputType t) s) as [r s0].
  cbn in Hcbm, Hnews. subst r.
  destruct (renderComponents_clean t ctx v cbm components s0 Hres)
    as (evs & Hevs & Hclean).
  rewrite Hnews, <- app_assoc in Hevs.
  rewrite (calls_since_app _ _ _ Hevs).
  intros [_ Hnofail]%Forall_app. destruct (Hclean Hnofail) as [Hr ->].
  split; [done|]. by exists news.
Qed.

(** C4.  If a [Build] or [Validate] call made during [Render] returns an
    error, that call is the last one of the run, and it was made for a
    component of the Composite document: before it come the constructor
    calls, the calls of the components that precede it in the document
    (none of which failed) and, for a failed [Validate], the [Build] of the
    same component; no builder is invoked for any later component.  [Render]
    returns the error wrapped: the message names that component, and [Unwrap]
    gives the original error back. *)
Theorem Render_stops_at_first_failure t ctx v s evs1 ev evs2 e :
  calls_since s (Render t ctx v s).2 = evs1 ++ ev :: evs2 →
  Call_failure ev = Some e →
  evs2 = [] ∧
  ∃ contributionFile' pre component post news inValidate,
    parseContributionSpec t = inr contributionFile' ∧
    CompositeConfig.Components contributionFile' = pre ++ component :: post ∧
    Forall (λ ev, is_builder_call ev = false) news ∧
    (inValidate = true → v = true) ∧
    evs1 ++ [ev] = news ++ flat_map (componentCalls v) pre
                     ++ failingCalls component inValidate e ∧
    (Render t ctx v s).1 = inl (componentFailure ev (Component.Name component) e) ∧
    Unwrap (componentFailure ev (Component.Name component) e) = Some e.
Proof.
  intros Hsplit Hfail. revert Hsplit. unfold Render, bind, of_result.
  destruct (parseCatalogsSpec t) as [e0|cat]; cbn.
  { unfold calls_since. rewrite drop_all. by intros ?%app_cons_not_nil. }
  destruct (parseContributionSpec t) as [e0|comp]; cbn.
  { unfold calls_since. rewrite drop_all. by intros ?%app_cons_not_nil. }
  destruct (newCatalogBuilderMap_run t (CatalogConfig.Catalogs cat) (outputType t) s)
    as (news & _ & Hnews & Hnb & _).
  assert (Forall (λ ev, Call_failure ev = None) news) as Hnews_ok.
  { eapply Forall_impl; [exact Hnb|]. by intros []. }
  assert (∀ l, Forall (λ ev, Call_failure ev = None) l →
               l ≠ evs1 ++ ev :: evs2) as Hclean.
  { intros l Hl ->. apply Forall_app in Hl as [_ Hl].
    apply Forall_inv in Hl. congruence. }
  assert (∀ cs, Forall (λ ev, Call_failure ev = None)
                       (flat_map (componentCalls v) cs)) as Hcalls_ok.
  { intros cs. induction cs as [|c cs IHcs]; [constructor|].
    cbn [flat_map]. apply Forall_app. split; [|done].
    unfold componentCalls. destruct v; repeat constructor. }
  destruct (newCatalogBuilderMap _ _ _ _) as [[e0|cbm] s0]; cbn in Hnews.
  { cbn. rewrite (calls_since_app _ _ _ Hnews). intros Heq.
    by destruct (Hclean news Hnews_ok). }
  destruct (renderComponents_trace t ctx v cbm (CompositeConfig.Components comp) s0)
    as [[_ Hc]|(pre & c & post & tail & Hcs & Hc & Hcase)];
    rewrite Hnews, <- app_assoc in Hc; rewrite (calls_since_app _ _ _ Hc).
  { intros Heq. exfalso. apply (Hclean (news ++ flat_map (componentCalls v)
                                          (CompositeConfig.Components comp)));
      [by apply Forall_app | done]. }
  destruct Hcase as [(_ & -> & _)|(inV & e' & ev' & Hv & Htail & Hlast & Hr)].
  { rewrite app_nil_r. intros Heq. exfalso.
    apply (Hclean (news ++ flat_map (componentCalls v) pre));
      [by apply Forall_app | done]. }
  intros Heq.
  assert (∃ good, tail = good ++ [ev'] ∧
                  Forall (λ ev, Call_failure ev = None) good ∧
                  Call_failure ev' = Some e') as (good & Hgood & Hgood_ok & Hev').
  { subst tail. destruct inV; cbn in Hlast; simplify_eq.
    - eexists [_]. split_and!; [reflexivity | by repeat constructor | done].
    - exists []. split_and!; [reflexivity | constructor | done]. }
  rewrite Hgood, !app_assoc in Heq.
  assert (Forall (λ ev, Call_failure ev = None)
                 ((news ++ flat_map (componentCalls v) pre) ++ good)) as Hbefore.
  { apply Forall_app. split; [apply Forall_app; by split | done]. }
  destruct (Forall_nofail_snoc _ ev' evs1 ev evs2 e Hbefore Heq Hfail)
    as (Hevs1 & -> & ->).
  split; [done|]. rewrite Hev' in Hfail. simplify_eq.
  exists comp, pre, c, post, news, inV.
  split_and!; try done.
  by rewrite Hgood, !app_assoc.
Qed.

(** The calls of a run of [Render] that got past the assembly: constructor
    calls, then calls to builders of the matrix. *)
Lemma Render_calls_resolve t ctx v s catalogFile' contributionFile' cbm s0 :
  parseCatalogsSpec t = inr catalogFile' →
  parseContributionSpec t = inr contributionFile' →
  newCatalogBuilderMap t (CatalogConfig.Catalogs catalogFile') (outputType t) s
    = (inr cbm, s0) →
  Forall (λ ev, is_builder_call ev = false ∨ callResolves cbm ev)
         (calls_since s (Render t ctx v s).2).
Proof.
  intros Hcat Hcomp Hcbm.
  rewrite (Render_assembled _ ctx v s _ _ _ _ Hcat Hcomp Hcbm).
  destruct (newCatalogBuilderMap_run t (CatalogConfig.Catalogs catalogFile')
              (outputType t) s) as (news & _ & Hnews & Hnb & _).
  rewrite Hcbm in Hnews. cbn in Hnews.
  destruct (renderComponents_calls t ctx v cbm
              (CompositeConfig.Components contributionFile') s0)
    as (evs & Hevs & _ & Hres & _).
  rewrite Hnews, <- app_assoc in Hevs. rewrite (calls_since_app _ _ _ Hevs).
  apply Forall_app. split; (eapply Forall_impl; [eassumption|]); cbn; auto.
Qed.

(** A component that fails to resolve makes the loop fail, wherever it
    stands in the sequence. *)
Lemma renderComponents_unresolved t ctx v cbm pre component post s :
  ¬ componentResolves cbm component →
  is_err (renderComponents t ctx v cbm (pre ++ component :: post) s).1 = true.
Proof.
  intros Hnot. rewrite renderComponents_app.
  destruct (renderComponents t ctx v cbm pre s) as [[e|[]] s1]; [done|].
  cbn [renderComponents]. unfold bind.
  pose proof (renderComponent_run t ctx v cbm component s1) as Hrun.
  cbn zeta in Hrun. rewrite Hrun.
  destruct (cbm !! Component.Name component) as [bm|] eqn:Hbm; [|done].
  destruct (bm !! _) as [b|] eqn:Hb; [|done].
  destruct Hnot. by exists bm, b.
Qed.

(** The names the range statement over the matrix yields are its keys. *)
Lemma range_keys {A} (m : gmap string A) :
  NoDup (range R m).*1 ∧ ∀ k, k ∈ (range R m).*1 ↔ is_Some (m !! k).
Proof.
  pose proof (range_perm R _ m) as Hperm.
  split; [rewrite Hperm; apply NoDup_fst_map_to_list|].
  intros k. rewrite Hperm, list_elem_of_fmap. split.
  - intros ([k' x] & -> & Hin%elem_of_map_to_list). by exists x.
  - intros [x Hx]. exists (k, x). by rewrite elem_of_map_to_list.
Qed.

(** C6 (as amended).  For a component whose name is absent from the assembled
    matrix, [Render] fails and no builder is invoked for that component.
    When every earlier component was processed without error, the failure is
    the unknown-component-catalog error for this component, raised in the state
    the earlier components left, and its message enumerates the catalog
    names of the matrix, each exactly once. *)
Theorem Render_unknown_component_catalog
    t ctx v s catalogFile' contributionFile' cbm s0 pre component post :
  parseCatalogsSpec t = inr catalogFile' →
  parseContributionSpec t = inr contributionFile' →
  newCatalogBuilderMap t (CatalogConfig.Catalogs catalogFile') (outputType t) s
    = (inr cbm, s0) →
  CompositeConfig.Components contributionFile' = pre ++ component :: post →
  cbm !! Component.Name component = None →
  is_err (Render t ctx v s).1 = true ∧
  Forall (λ ev, Call_component ev ≠ Some (Component.Name component))
         (calls_since s (Render t ctx v s).2) ∧
  ∀ s1, renderComponents t ctx v cbm pre s0 = (inr tt, s1) →
    ∃ allowed,
      NoDup allowed ∧ (∀ k, k ∈ allowed ↔ is_Some (cbm !! k)) ∧
      Render t ctx v s
        = (inl (errorString (unknownCatalogMsg (Component.Name component) allowed)),
           s1) ∧
      ∀ k, is_Some (cbm !! k) →
           occurs_in k (unknownCatalogMsg (Component.Name component) allowed).
Proof.
  intros Hcat Hcomp Hcbm Hsplit Habsent.
  assert (¬ componentResolves cbm component) as Hnot.
  { intros (bm & b & Hbm & _). congruence. }
  split; [|split].
  - rewrite (Render_assembled _ ctx v s _ _ _ _ Hcat Hcomp Hcbm), Hsplit.
    by apply renderComponents_unresolved.
  - eapply Forall_impl; [by eapply Render_calls_resolve|]. cbn.
    intros ev [Hnb|(n & sc & Hn & _ & bm & b & Hbm & _)] Hev.
    + by destruct ev.
    + congruence.
  - intros s1 Hpre.
    rewrite (Render_assembled _ ctx v s _ _ _ _ Hcat Hcomp Hcbm), Hsplit.
    rewrite renderComponents_app, Hpre. cbn [renderComponents]. unfold bind.
    pose proof (renderComponent_run t ctx v cbm component s1) as Hrun.
    cbn zeta in Hrun. rewrite Hrun, Habsent.
    destruct (range_keys cbm) as [Hnodup Hkeys].
    exists (range R cbm).*1. split_and!; try done.
    intros k Hk. unfold unknownCatalogMsg, fmt_strings.
    do 4 apply occurs_in_app_l. apply occurs_in_app_r, occurs_in_Join.
    by apply Hkeys.
Qed.

(** C7 (as amended).  For a component that names a catalog of the matrix and
    a schema that is not a key of that catalog's builders, [Render] fails and
    no builder is invoked for that component and schema.  When every earlier
    component was processed without error, the failure is the error naming
    the component and the schema for which no builder was found, raised in
    the state the earlier components left. *)
Theorem Render_unknown_component_schema
    t ctx v s catalogFile' contributionFile' cbm s0 pre component post bm :
  parseCatalogsSpec t = inr catalogFile' →
  parseContributionSpec t = inr contributionFile' →
  newCatalogBuilderMap t (CatalogConfig.Catalogs catalogFile') (outputType t) s
    = (inr cbm, s0) →
  CompositeConfig.Components contributionFile' = pre ++ component :: post →
  cbm !! Component.Name component = Some bm →
  bm !! TemplateDefinition.Schema (Strategy.Template (Component.Strategy component))
    = None →
  is_err (Render t ctx v s).1 = true ∧
  Forall (λ ev, ¬ (Call_component ev = Some (Component.Name component) ∧
                   Call_schema ev
                     = Some (TemplateDefinition.Schema
                               (Strategy.Template (Component.Strategy component)))))
         (calls_since s (Render t ctx v s).2) ∧
  ∀ s1, renderComponents t ctx v cbm pre s0 = (inr tt, s1) →
    Render t ctx v s
      = (inl (errorString
                (noBuilderMsg (Component.Name component)
                   (TemplateDefinition.Schema
                      (Strategy.Template (Component.Strategy component))))),
         s1).
Proof.
  intros Hcat Hcomp Hcbm Hsplit Hbm Hnone.
  assert (¬ componentResolves cbm component) as Hnot.
  { intros (bm' & b & Hbm' & Hb). congruence. }
  split; [|split].
  - rewrite (Render_assembled _ ctx v s _ _ _ _ Hcat Hcomp Hcbm), Hsplit.
    by apply renderComponents_unresolved.
  - eapply Forall_impl; [by eapply Render_calls_resolve|]. cbn.
    intros ev [Hnb|(n & sc & Hn & Hsc & Hres)] [Hev Hev'].
    + by destruct ev.
    + apply Hnot. unfold componentResolves. congruence.
  - intros s1 Hpre.
    rewrite (Render_assembled _ ctx v s _ _ _ _ Hcat Hcomp Hcbm), Hsplit.
    rewrite renderComponents_app, Hpre. cbn [renderComponents]. unfold bind.
    pose proof (renderComponent_run t ctx v cbm component s1) as Hrun.
    cbn zeta in Hrun. by rewrite Hrun, Hbm, Hnone.
Qed.

(** *** Parsing: specification *)

Lemma parseCatalogsSpec_mismatch t :
  catalogSchemaMismatch t → parseCatalogsSpec t = inl catalogSchemaError.
Proof.
  intros (doc & cfg & Hdoc & Hcfg & Hne). unfold parseCatalogsSpec.
  rewrite Hdoc, Hcfg. by rewrite decide_False.
Qed.

Lemma parseContributionSpec_mismatch t :
  compositeSchemaMismatch t → parseContributionSpec t = inl compositeSchemaError.
Proof.
  intros (doc & cfg & Hdoc & Hcfg & Hne). unfold parseContributionSpec.
  rewrite Hdoc, Hcfg. by rewrite decide_False.
Qed.

(** C8.  A Catalog or Composite document that decodes and unmarshals but
    whose [schema] field differs from the expected constant is rejected by its
    parser with the schema-mismatch error, and [Render] then fails in the
    state it started in: no constructor call (no matrix is assembled) and no
    [Build] or [Validate] call is made.  The error [Render] returns is the
    mismatch error of the Catalog document, or, when the Catalog document
    parses, that of the Composite document. *)
Theorem Render_schema_mismatch_is_fatal t ctx v s :
  catalogSchemaMismatch t ∨ compositeSchemaMismatch t →
  ∃ e,
    Render t ctx v s = (inl e, s) ∧
    calls_since s (Render t ctx v s).2 = [] ∧
    (catalogSchemaMismatch t →
       parseCatalogsSpec t = inl catalogSchemaError ∧ e = catalogSchemaError) ∧
    (compositeSchemaMismatch t →
       parseContributionSpec t = inl compositeSchemaError ∧
       (is_err (parseCatalogsSpec t) = false → e = compositeSchemaError)).
Proof.
  intros Hmis.
  destruct (Render_parse_failure t ctx v s) as [Hcat Hcomp].
  assert (∃ e, Render t ctx v s = (inl e, s) ∧
               (∀ e', parseCatalogsSpec t = inl e' → e = e') ∧
               (∀ e', parseContributionSpec t = inl e' →
                      is_err (parseCatalogsSpec t) = false → e = e'))
    as (e & Hr & Hc1 & Hc2).
  { destruct (parseCatalogsSpec t) as [e1|cat] eqn:H1.
    - exists e1. split_and!; [by apply Hcat | by intros ? [= ->] | done].
    - destruct Hmis as [Hm|Hm];
        [apply parseCatalogsSpec_mismatch in Hm; congruence|].
      apply parseContributionSpec_mismatch in Hm.
      destruct (Hcomp _ Hm) as (e & Hr & He). exists e. rewrite (He eq_refl).
      split_and!; [by rewrite Hr, He | done | congruence]. }
  exists e. split_and!.
  - done.
  - rewrite Hr. unfold calls_since. cbn. by rewrite drop_all.
  - intros Hm%parseCatalogsSpec_mismatch. split; [done | by apply Hc1].
  - intros Hm%parseContributionSpec_mismatch. split; [done|].
    intros Hok. by apply Hc2.
Qed.

(** *** The [validate] field *)

Lemma newBuilderMap_WithValidate b t name ot schemas bm s :
  newBuilderMap (WithValidate b t) name ot schemas bm s
    = newBuilderMap t name ot schemas bm s.
Proof.
  revert bm s. induction schemas as [|schema rest IH]; intros bm s; [done|].
  cbn [newBuilderMap]. unfold bind, or_else.
  change (builderForSchema (WithValidate b t)) with (builderForSchema t).
  destruct (builderForSchema t schema _ s) as [[e|builder] s']; [done|]. apply IH.
Qed.

Lemma setupCatalogs_WithValidate b t ot catalogs st s :
  setupCatalogs (WithValidate b t) ot catalogs st s
    = setupCatalogs t ot catalogs st s.
Proof.
  revert st s. induction catalogs as [|catalog rest IH]; intros st s; [done|].
  cbn [setupCatalogs]. destruct (0 <? _); [apply IH|].
  destruct (catalogBuilderMap st !! _); [apply IH|].
  unfold bind. rewrite newBuilderMap_WithValidate.
  destruct (newBuilderMap t _ _ _ _ s) as [[e|bm] s']; [done|]. apply IH.
Qed.

Lemma renderComponents_WithValidate b t ctx v cbm components s :
  renderComponents (WithValidate b t) ctx v cbm components s
    = renderComponents t ctx v cbm components s.
Proof.
  revert s. induction components as [|c rest IH]; intros s; [done|].
  cbn [renderComponents]. unfold bind.
  change (renderComponent (WithValidate b t)) with (renderComponent t).
  destruct (renderComponent t ctx v cbm c s) as [[e|[]] s']; [done|]. apply IH.
Qed.

Lemma Render_WithValidate b t ctx v s :
  Render (WithValidate b t) ctx v s = Render t ctx v s.
Proof.
  unfold Render, bind, of_result.
  change (parseCatalogsSpec (WithValidate b t)) with (parseCatalogsSpec t).
  change (parseContributionSpec (WithValidate b t)) with (parseContributionSpec t).
  destruct (parseCatalogsSpec t) as [e|cat]; [done|].
  destruct (parseContributionSpec t) as [e|comp]; [done|].
  unfold newCatalogBuilderMap, bind. cbn [outputType WithValidate].
  rewrite setupCatalogs_WithValidate.
  destruct (setupCatalogs t _ _ _ s) as [[e|st] s']; [done|].
  destruct (setupFailed st); [done|]. cbn.
  apply renderComponents_WithValidate.
Qed.

(** C10.  [Render] never reads the [validate] field of the Template: two
    Templates that differ only in the value given to [WithValidate] behave
    the same under [Render] with the same arguments, result and final state
    alike; whether [Validate] is invoked is decided by the parameter alone. *)
Theorem Render_ignores_validate_field t b1 b2 ctx v s :
  Render (WithValidate b1 t) ctx v s = Render (WithValidate b2 t) ctx v s.
Proof. by rewrite !Render_WithValidate. Qed.

(** The same for Templates built by [NewTemplate] whose last option sets the
    field. *)
Lemma Render_NewTemplate_validate opts b1 b2 ctx v s :
  Render (NewTemplate (opts ++ [WithValidate b1])) ctx v s
    = Render (NewTemplate (opts ++ [WithValidate b2])) ctx v s.
Proof.
  unfold NewTemplate. rewrite !foldl_app. cbn [foldl].
  by rewrite !Render_WithValidate.
Qed.

(** *** FetchCatalogConfig: specification *)

(** C9.  [FetchCatalogConfig] treats the path as local exactly when it does
    not parse as a request URI or is an absolute file path: it then opens the
    file, and a failure to open is returned as an error whose message carries
    the path and the cause.  In every other case it issues one GET, for the
    parsed URI, through the given getter; a transport failure is returned as
    an error whose message carries the path and the cause, and otherwise
    the body of the response is returned whatever its status code. *)
Theorem FetchCatalogConfig_local_or_remote path httpGetter w :
  (is_err (ParseRequestURI path) || IsAbs path = true →
     FetchCatalogConfig path httpGetter w =
       match os_Open path w with
       | (inl err, w') =>
           (inl (errorString ("opening catalog config file " +:+ quote path
                                +:+ ": " +:+ Error err)), w')
       | (inr tempCatalog, w') => (inr tempCatalog, w')
       end)
  ∧ (is_err (ParseRequestURI path) || IsAbs path = false →
     ∃ catalogURI,
       ParseRequestURI path = inr catalogURI ∧
       FetchCatalogConfig path httpGetter w =
         match Get httpGetter (URL_String catalogURI) w with
         | (inl err, w') =>
             (inl (errorString ("fetching remote catalog config file "
                                  +:+ quote path +:+ ": " +:+ Error err)), w')
         | (inr tempResp, w') => (inr (Body tempResp), w')
         end).
Proof.
  unfold FetchCatalogConfig.
  destruct (ParseRequestURI path) as [e|u], (IsAbs path); cbn;
    split; intros H; try done.
  by exists u.
Qed.

(** ** Further properties of the assembly *)

(** The log of the inner loop: constructor calls for the schemas of a prefix
    of the list, all registered; the whole list unless the loop failed. *)
Lemma newBuilderMap_calls t name ot schemas bm s :
  ∃ made,
    made `prefix_of` schemas ∧
    Forall (λ schema, is_Some (registeredBuilders t !! schema)) made ∧
    calls (newBuilderMap t name ot schemas bm s).2
      = calls s ++ ((λ schema, NewBuilderCall schema {| OutputType := ot |}) <$> made) ∧
    (is_err (newBuilderMap t name ot schemas bm s).1 = false → made = schemas).
Proof.
  revert bm s. induction schemas as [|schema rest IH]; intros bm s.
  { exists []. cbn. rewrite app_nil_r. split_and!; [done|constructor|done..]. }
  cbn [newBuilderMap]. unfold bind, or_else. rewrite builderForSchema_run.
  destruct (registeredBuilders t !! schema) as [f|] eqn:Hreg; cbn.
  - destruct (IH (<[schema := f {| OutputType := ot |}]> bm)
                {| world := world s;
                   calls := calls s ++ [NewBuilderCall schema {| OutputType := ot |}] |})
      as (made & Hpre & Hmade & Hc & Hall).
    exists (schema :: made). split_and!.
    + by apply prefix_cons.
    + constructor; [by eexists | done].
    + rewrite Hc. cbn. by rewrite <- app_assoc.
    + intros Hok. by rewrite Hall.
  - exists []. rewrite app_nil_r. split_and!; [apply prefix_nil|constructor|done..].
Qed.

(** The log of the outer loop.  Every call is a constructor call for a
    registered schema of a catalog that passes validation; when all such
    catalogs declare registered schemas only, the calls are those of the
    catalogs whose names are new, in order. *)
Lemma setupCatalogs_calls t ot catalogs st s :
  ∃ evs,
    calls (setupCatalogs t ot catalogs st s).2 = calls s ++ evs ∧
    Forall (constructsFor t ot catalogs) evs ∧
    (Forall (λ c, ¬ workingDirEmpty c → buildersRegistered t c) catalogs →
     evs = flat_map (constructorCalls ot)
             (assembledCatalogs (dom (catalogBuilderMap st)) catalogs)).
Proof.
  revert st s. induction catalogs as [|catalog rest IH]; intros st s.
  { exists []. cbn. rewrite app_nil_r. split_and!; [done|constructor|done]. }
  assert (∀ evs, Forall (constructsFor t ot rest) evs →
                 Forall (constructsFor t ot (catalog :: rest)) evs) as Hweaken.
  { intros evs Hevs. eapply Forall_impl; [exact Hevs|].
    intros ev (schema & c & -> & Hin & ?).
    exists schema, c. split; [done|]. split; [by apply elem_of_cons; right|done]. }
  cbn [setupCatalogs assembledCatalogs]. rewrite validateCatalog_cases.
  destruct (decide (workingDirEmpty catalog)) as [Hempty|Hvalid]; cbn.
  - set (st1 := {| catalogBuilderMap := catalogBuilderMap st;
                   setupFailed := true;
                   setupErrors := <[Catalog.Name catalog := [workingDirMsg]]>
                                    (setupErrors st) |}).
    destruct (IH st1 s) as (evs & Hc & Hevs & Hexact).
    exists evs. split_and!; [done | by apply Hweaken|].
    intros Hreg. apply Hexact. by apply Forall_inv_tail in Hreg.
  - destruct (catalogBuilderMap st !! Catalog.Name catalog) as [bm0|] eqn:Hold.
    + destruct (IH st s) as (evs & Hc & Hevs & Hexact).
      exists evs. split_and!; [done | by apply Hweaken|].
      intros Hreg. rewrite decide_True by (apply elem_of_dom; by eexists).
      apply Hexact. by apply Forall_inv_tail in Hreg.
    + unfold bind.
      destruct (newBuilderMap_calls t (Catalog.Name catalog) ot
                  (Catalog.Builders catalog) ∅ s)
        as (made & Hpre & Hmade & Hc1 & Hall).
      assert (Forall (constructsFor t ot (catalog :: rest))
                ((λ schema, NewBuilderCall schema {| OutputType := ot |}) <$> made))
        as Hmade_ok.
      { apply Forall_fmap, Forall_forall. intros schema Hin. cbn.
        exists schema, catalog. split_and!; try done.
        - apply elem_of_cons; by left.
        - destruct Hpre as [more ->]. apply elem_of_app; by left.
        - by apply (proj1 (Forall_forall _ _) Hmade). }
      destruct (newBuilderMap t (Catalog.Name catalog) ot
                  (Catalog.Builders catalog) ∅ s) as [[e|bm] s1] eqn:Hrun;
        cbn in Hc1, Hall.
      * eexists. split_and!; [exact Hc1 | done |].
        intros Hreg. exfalso. apply Forall_inv in Hreg. specialize (Hreg Hvalid).
        destruct (newBuilderMap_run t (Catalog.Name catalog) ot
                    (Catalog.Builders catalog) ∅ s) as (_ & _ & _ & _ & Hres).
        rewrite Hrun in Hres. cbn in Hres.
        destruct Hres as (schema & Hin & Hnone & _).
        apply (proj1 (Forall_forall _ _) Hreg schema) in Hin.
        rewrite Hnone in Hin. by destruct Hin.
      * set (st1 := {| catalogBuilderMap :=
                         <[Catalog.Name catalog := bm]> (catalogBuilderMap st);
                       setupFailed := setupFailed st;
                       setupErrors := setupErrors st |}).
        destruct (IH st1 s1) as (evs & Hc & Hevs & Hexact).
        eexists (_ ++ evs). split_and!.
        -- rewrite Hc, Hc1. by rewrite <- app_assoc.
        -- apply Forall_app. split; [done | by apply Hweaken].
        -- intros Hreg.
           rewrite decide_False by (rewrite elem_of_dom, Hold; by intros []).
           cbn [flat_map]. rewrite (Hall eq_refl). f_equal.
           rewrite (Hexact (Forall_inv_tail Hreg)). subst st1. cbn.
           by rewrite dom_insert_L.
Qed.

(** X7.  Assembling the matrix never invokes a builder and never touches the
    outside world, whatever its outcome: the only calls it makes are
    constructor calls, each with the shared output type, for a registered
    schema that a catalog passing validation declares. *)
Theorem newCatalogBuilderMap_only_constructs t catalogs ot s :
  world (newCatalogBuilderMap t catalogs ot s).2 = world s ∧
  calls (newCatalogBuilderMap t catalogs ot s).2
    = calls s ++ calls_since s (newCatalogBuilderMap t catalogs ot s).2 ∧
  Forall (constructsFor t ot catalogs)
         (calls_since s (newCatalogBuilderMap t catalogs ot s).2).
Proof.
  destruct (newCatalogBuilderMap_run t catalogs ot s) as (_ & Hw & _).
  split; [done|].
  assert (∃ evs, calls (newCatalogBuilderMap t catalogs ot s).2 = calls s ++ evs ∧
                 Forall (constructsFor t ot catalogs) evs) as (evs & Hc & Hevs).
  { unfold newCatalogBuilderMap, bind.
    destruct (setupCatalogs_calls t ot catalogs
                {| catalogBuilderMap := ∅; setupFailed := false; setupErrors := ∅ |} s)
      as (evs & Hc & Hevs & _).
    exists evs. destruct (setupCatalogs _ _ _ _ _) as [[e|st'] s1]; [done|].
    by destruct (setupFailed st'). }
  by rewrite (calls_since_app _ _ _ Hc).
Qed.

(** X8.  When every catalog that passes validation declares registered
    schemas only, the constructor calls of the assembly are exactly those of
    the catalogs that pass validation and whose name has not occurred before
    among them, in document order, one call per schema in the order of the
    builder list: a catalog repeating an assembled name has no builder
    constructed, and neither has a catalog with an empty [workingDir]. *)
Theorem newCatalogBuilderMap_constructs_first_occurrences t catalogs ot s :
  Forall (λ c, ¬ workingDirEmpty c → buildersRegistered t c) catalogs →
  calls_since s (newCatalogBuilderMap t catalogs ot s).2
    = flat_map (constructorCalls ot) (assembledCatalogs ∅ catalogs).
Proof.
  intros Hreg. unfold newCatalogBuilderMap, bind.
  destruct (setupCatalogs_calls t ot catalogs
              {| catalogBuilderMap := ∅; setupFailed := false; setupErrors := ∅ |} s)
    as (evs & Hc & _ & Hexact).
  specialize (Hexact Hreg). cbn in Hexact. rewrite dom_empty_L in Hexact.
  rewrite <- Hexact. apply calls_since_app.
  destruct (setupCatalogs _ _ _ _ _) as [[e|st'] s1]; [done|].
  by destruct (setupFailed st').
Qed.

(** The catalogs whose builders are constructed are first occurrences of
    their names among the catalogs that pass validation. *)
Lemma assembledCatalogs_first seen catalogs c :
  c ∈ assembledCatalogs seen catalogs →
  (Catalog.Name c ∉ seen) ∧ firstValidNamed (Catalog.Name c) catalogs = Some c.
Proof.
  revert seen. induction catalogs as [|catalog rest IHrest]; intros seen.
  { by intros ?%elem_of_nil. }
  cbn [assembledCatalogs]. unfold firstValidNamed. cbn [find].
  destruct (decide (workingDirEmpty catalog)) as [Hempty|Hvalid].
  { rewrite (bool_decide_eq_true_2 _ Hempty), andb_false_r. apply IHrest. }
  rewrite (bool_decide_eq_false_2 _ Hvalid), andb_true_r.
  destruct (decide (Catalog.Name catalog ∈ seen)) as [Hseen|Hnew].
  - intros Hin. destruct (IHrest _ Hin) as [Hc Hfirst]. split; [done|].
    rewrite bool_decide_eq_false_2; [done|]. congruence.
  - intros [->|Hin]%elem_of_cons.
    + split; [done|]. by rewrite bool_decide_eq_true_2.
    + destruct (IHrest _ Hin) as [Hc Hfirst]. split.
      * intros Hs. apply Hc, elem_of_union. by right.
      * rewrite bool_decide_eq_false_2; [done|].
        intros Heq. apply Hc, elem_of_union. left.
        by apply elem_of_singleton.
Qed.

(** X9.  On success the matrix has an entry for exactly the catalog names of
    the sequence. *)
Theorem newCatalogBuilderMap_entries_are_catalog_names t catalogs ot s cbm name :
  (newCatalogBuilderMap t catalogs ot s).1 = inr cbm →
  (is_Some (cbm !! name) ↔ name ∈ Catalog.Name <$> catalogs).
Proof.
  intros Hrun.
  destruct (newCatalogBuilderMap_run t catalogs ot s) as (evs & _ & _ & _ & Hres).
  rewrite Hrun in Hres. destruct Hres as [_ Hlook]. specialize (Hlook name).
  destruct (firstCatalogNamed name catalogs) as [c|] eqn:Hfirst.
  - destruct Hlook as (bm & -> & _).
    apply firstCatalogNamed_Some in Hfirst as [Hin <-].
    split; [intros _; by apply list_elem_of_fmap_2 | by eexists].
  - rewrite Hlook. split; [by intros [] |].
    intros (c & -> & Hin)%list_elem_of_fmap. exfalso.
    unfold firstCatalogNamed in Hfirst.
    apply list_elem_of_In in Hin.
    apply (find_none _ _ Hfirst) in Hin.
    by rewrite bool_decide_eq_true_2 in Hin.
Qed.


(** The field errors the outer loop has collected: an entry is either one
    that was there before, or the one field error of a catalog of the
    sequence with an empty [workingDir]. *)
Lemma setupCatalogs_errors t ot catalogs st s st' name errs :
  (setupCatalogs t ot catalogs st s).1 = inr st' →
  setupErrors st' !! name = Some errs →
  setupErrors st !! name = Some errs
  ∨ (errs = [workingDirMsg] ∧
     ∃ c, c ∈ catalogs ∧ workingDirEmpty c ∧ Catalog.Name c = name).
Proof.
  revert st s. induction catalogs as [|catalog rest IH]; intros st s.
  { cbn. intros [= ->] Hlook. by left. }
  assert (∀ (P : Prop), (P → ∃ c, c ∈ rest ∧ workingDirEmpty c ∧ Catalog.Name c = name) →
            P → ∃ c, c ∈ catalog :: rest ∧ workingDirEmpty c ∧ Catalog.Name c = name)
    as Hweaken.
  { intros P HP HPs. destruct (HP HPs) as (c & Hin & ?). exists c.
    split; [by apply elem_of_cons; right | done]. }
  cbn [setupCatalogs]. rewrite validateCatalog_cases.
  destruct (decide (workingDirEmpty catalog)) as [Hempty|Hvalid]; cbn.
  - intros Hrun Hlook. destruct (IH _ _ Hrun Hlook) as [Hold|[-> Hc]]; cbn in *.
    + destruct (decide (Catalog.Name catalog = name)) as [Heq|Hne].
      * rewrite Heq, lookup_insert_eq in Hold. injection Hold as <-.
        right. split; [done|]. exists catalog.
        split; [apply elem_of_cons; by left | done].
      * rewrite lookup_insert_ne in Hold by done. by left.
    + right. split; [done|]. destruct Hc as (c & Hin & ?). exists c.
      split; [by apply elem_of_cons; right | done].
  - assert (∀ st1 s1, setupErrors st1 = setupErrors st →
              (setupCatalogs t ot rest st1 s1).1 = inr st' →
              setupErrors st' !! name = Some errs →
              setupErrors st !! name = Some errs
              ∨ (errs = [workingDirMsg] ∧
                 ∃ c, c ∈ catalog :: rest ∧ workingDirEmpty c ∧ Catalog.Name c = name))
      as Hnext.
    { intros st1 s1 Hsame Hrun Hlook.
      destruct (IH _ _ Hrun Hlook) as [Hold|[-> (c & Hin & ?)]].
      - left. by rewrite <- Hsame.
      - right. split; [done|]. exists c.
        split; [by apply elem_of_cons; right | done]. }
    destruct (catalogBuilderMap st !! Catalog.Name catalog); [by apply Hnext|].
    unfold bind.
    destruct (newBuilderMap t _ ot _ ∅ s) as [[e|bm] s1]; [done|].
    by apply Hnext.
Qed.

(** X10.  When a catalog has an empty [workingDir] and every catalog that
    passes validation declares registered schemas only, the message of the
    aggregated error consists of one block per distinct name of a catalog
    with an empty [workingDir], each with the one field error, and of nothing
    else: a name repeated among those catalogs is reported once, and catalogs
    that pass validation are not reported. *)
Theorem newCatalogBuilderMap_one_block_per_invalid_name t catalogs ot s :
  Exists workingDirEmpty catalogs →
  Forall (λ c, ¬ workingDirEmpty c → buildersRegistered t c) catalogs →
  ∃ names,
    NoDup names ∧
    (∀ name, name ∈ names ↔
             ∃ c, c ∈ catalogs ∧ workingDirEmpty c ∧ Catalog.Name c = name) ∧
    (newCatalogBuilderMap t catalogs ot s).1
      = inl (errorString
               (validationFailedMsg
                  (setupErrMsg ((λ name, (name, [workingDirMsg])) <$> names)))).
Proof.
  intros Hex Hreg. unfold newCatalogBuilderMap, bind.
  set (st0 := {| catalogBuilderMap := ∅; setupFailed := false; setupErrors := ∅ |}).
  destruct (setupCatalogs_run t ot catalogs st0 s) as (evs & _ & _ & _ & Hres).
  pose proof (setupCatalogs_errors t ot catalogs st0 s) as Hback.
  destruct (setupCatalogs t ot catalogs st0 s) as [[e|st'] s1]; cbn in *.
  { exfalso. destruct Hres as (c & schema & Hin & Hvalid & Hsch & Hnone & _).
    apply (proj1 (Forall_forall _ _) Hreg c Hin) in Hvalid.
    apply (proj1 (Forall_forall _ _) Hvalid schema) in Hsch.
    rewrite Hnone in Hsch. by destruct Hsch. }
  destruct Hres as (Hfail & _ & Herrs & _ & _).
  rewrite (proj2 Hfail (or_intror Hex)). cbn.
  destruct (range_keys (setupErrors st')) as [Hnodup Hkeys].
  exists (range R (setupErrors st')).*1. split_and!.
  - done.
  - intros name. rewrite Hkeys. split.
    + intros [errs Hlook].
      destruct (Hback st' name errs eq_refl Hlook) as [Hold|[_ Hc]]; [|done].
      by rewrite lookup_empty in Hold.
    + intros (c & Hin & Hemp & <-). rewrite (Herrs c Hin Hemp). by eexists.
  - assert (Forall (λ entry, entry.2 = [workingDirMsg]) (range R (setupErrors st')))
      as Hvals.
    { apply Forall_forall. intros [name errs] Hin. cbn.
      rewrite (range_perm R) in Hin. apply elem_of_map_to_list in Hin.
      destruct (Hback st' name errs eq_refl Hin) as [Hold|[-> _]]; [|done].
      by rewrite lookup_empty in Hold. }
    assert (∀ l : list (string * list string),
              Forall (λ entry, entry.2 = [workingDirMsg]) l →
              (λ name, (name, [workingDirMsg])) <$> l.*1 = l) as Hlist.
    { intros l Hl. induction Hl as [|[name errs] l Hentry _ IHl]; [done|].
      cbn in *. by rewrite IHl, Hentry. }
    by rewrite (Hlist _ Hvals).
Qed.

(** ** When the assembly succeeds *)

Lemma newBuilderMap_succeeds_iff t name ot schemas bm s :
  is_err (newBuilderMap t name ot schemas bm s).1 = false ↔
  Forall (λ schema, is_Some (registeredBuilders t !! schema)) schemas.
Proof.
  destruct (newBuilderMap_run t name ot schemas bm s) as (_ & _ & _ & _ & Hres).
  destruct (newBuilderMap t name ot schemas bm s).1 as [e|bm'].
  - destruct Hres as (schema & Hin & Hnone & _). split; [done|].
    intros Hall. apply (proj1 (Forall_forall _ _) Hall schema) in Hin.
    rewrite Hnone in Hin. by destruct Hin.
  - by destruct Hres as [Hall _].
Qed.

(** The outer loop fails only on an unregistered schema of a catalog whose
    builders it constructs. *)
Lemma setupCatalogs_succeeds_iff t ot catalogs st s :
  is_err (setupCatalogs t ot catalogs st s).1 = false ↔
  Forall (buildersRegistered t)
         (assembledCatalogs (dom (catalogBuilderMap st)) catalogs).
Proof.
  revert st s. induction catalogs as [|catalog rest IH]; intros st s.
  { cbn. split; [constructor | done]. }
  cbn [setupCatalogs assembledCatalogs]. rewrite validateCatalog_cases.
  destruct (decide (workingDirEmpty catalog)) as [Hempty|Hvalid]; cbn.
  { by rewrite IH. }
  destruct (catalogBuilderMap st !! Catalog.Name catalog) as [bm0|] eqn:Hold.
  { rewrite decide_True by (apply elem_of_dom; by eexists). apply IH. }
  rewrite decide_False by (rewrite elem_of_dom, Hold; by intros []).
  unfold bind.
  pose proof (newBuilderMap_succeeds_iff t (Catalog.Name catalog) ot
                (Catalog.Builders catalog) ∅ s) as Hinner.
  destruct (newBuilderMap t (Catalog.Name catalog) ot
              (Catalog.Builders catalog) ∅ s) as [[e|bm] s1]; cbn in Hinner.
  - split; [done|]. intros Hall%Forall_inv. by apply Hinner in Hall.
  - rewrite Forall_cons, IH. cbn. rewrite dom_insert_L.
    split; [intros H; split; [by apply Hinner | done] | by intros [_ H]].
Qed.

(** X12.  The assembly succeeds exactly when every catalog has a
    [workingDir] and every catalog whose builders are constructed (the first
    of each name) declares registered schemas only.  What a later catalog of
    an already assembled name declares is not looked at. *)
Theorem newCatalogBuilderMap_succeeds_iff t catalogs ot s :
  is_err (newCatalogBuilderMap t catalogs ot s).1 = false ↔
  Forall (λ c, ¬ workingDirEmpty c) catalogs ∧
  Forall (buildersRegistered t) (assembledCatalogs ∅ catalogs).
Proof.
  unfold newCatalogBuilderMap, bind.
  set (st0 := {| catalogBuilderMap := ∅; setupFailed := false; setupErrors := ∅ |}).
  pose proof (setupCatalogs_succeeds_iff t ot catalogs st0 s) as Hiff.
  cbn in Hiff. rewrite dom_empty_L in Hiff.
  destruct (setupCatalogs_run t ot catalogs st0 s) as (evs & _ & _ & _ & Hres).
  destruct (setupCatalogs t ot catalogs st0 s) as [[e|st'] s1]; cbn in *.
  { split; [done|]. intros [_ Hreg]. by apply Hiff in Hreg. }
  destruct Hres as (Hfail & _).
  destruct (setupFailed st') eqn:Hflag; cbn.
  - split; [done|]. intros [Hvalid _]. exfalso.
    destruct (proj1 Hfail eq_refl) as [?|Hex]; [done|].
    apply Exists_exists in Hex as (c & Hin & Hemp).
    by apply (proj1 (Forall_forall _ _) Hvalid c Hin).
  - split; [|done]. intros _. split; [|by apply Hiff].
    apply Forall_forall. intros c Hin Hemp.
    destruct Hfail as [_ Hfail]. discriminate Hfail.
    right. apply Exists_exists. eauto.
Qed.

(** ** Further properties of Render *)

Lemma parse_errors_are_flat t :
  (∀ e, parseCatalogsSpec t = inl e → Unwrap e = None) ∧
  (∀ e, parseContributionSpec t = inl e → Unwrap e = None).
Proof.
  unfold parseCatalogsSpec, parseContributionSpec.
  split; intros e;
    destruct (YAMLOrJSONDecode _) as [?|doc]; try (by intros [= <-]).
  - destruct (Unmarshal_CatalogConfig doc) as [?|cfg]; [by intros [= <-]|].
    case_decide; [done | by intros [= <-]].
  - destruct (Unmarshal_CompositeConfig doc) as [?|cfg]; [by intros [= <-]|].
    case_decide; [done | by intros [= <-]].
Qed.

(** X1.  A document that cannot be parsed, for whatever reason (it does not
    decode, does not unmarshal, or carries another schema), ends [Render] in
    the state it started in.  The error returned is the one of the parser, the
    Catalog document's taking precedence over the Composite document's, and
    it has no cause to unwrap. *)
Theorem Render_parse_failure_is_fatal t ctx v s :
  is_err (parseCatalogsSpec t) || is_err (parseContributionSpec t) = true →
  ∃ e,
    Render t ctx v s = (inl e, s) ∧
    (parseCatalogsSpec t = inl e
     ∨ (is_err (parseCatalogsSpec t) = false ∧ parseContributionSpec t = inl e)) ∧
    Unwrap e = None.
Proof.
  intros Hbad. destruct (parse_errors_are_flat t) as [Hflat1 Hflat2].
  unfold Render, bind, of_result.
  destruct (parseCatalogsSpec t) as [e|cat].
  { exists e. split_and!; [done | by left | by apply Hflat1]. }
  destruct (parseContributionSpec t) as [e|comp]; [|done].
  exists e. split_and!; [done | by right | by apply Hflat2].
Qed.

(** X2.  A failure of the assembly ends [Render]: its error is returned as
    it is, no builder is invoked, and the outside world is left as it
    was. *)
Theorem Render_assembly_failure_is_fatal
    t ctx v s catalogFile' contributionFile' e :
  parseCatalogsSpec t = inr catalogFile' →
  parseContributionSpec t = inr contributionFile' →
  (newCatalogBuilderMap t (CatalogConfig.Catalogs catalogFile') (outputType t) s).1
    = inl e →
  (Render t ctx v s).1 = inl e ∧
  world (Render t ctx v s).2 = world s ∧
  Forall (λ ev, is_builder_call ev = false) (calls_since s (Render t ctx v s).2) ∧
  Unwrap e = None.
Proof.
  intros Hcat Hcomp Hfail. rewrite (Render_parsed _ ctx v s _ _ Hcat Hcomp).
  destruct (newCatalogBuilderMap_run t (CatalogConfig.Catalogs catalogFile')
              (outputType t) s) as (news & Hw & Hc & Hnb & Hres).
  destruct (newCatalogBuilderMap _ _ _ _) as [[e'|cbm] s0]; cbn in *; [|done].
  injection Hfail as ->. rewrite (calls_since_app _ _ _ Hc).
  split_and!; try done.
  destruct Hres as [(c & schema & _ & _ & _ & _ & ->)|(_ & errs & _ & ->)]; done.
Qed.

(** The errors of the loop over components: an error without a cause, or
    the wrapped error of the builder call that closes the log. *)
Lemma renderComponents_error t ctx v cbm components s err :
  (renderComponents t ctx v cbm components s).1 = inl err →
  Unwrap err = None
  ∨ ∃ evs ev e name,
      calls (renderComponents t ctx v cbm components s).2 = calls s ++ evs ++ [ev] ∧
      Call_failure ev = Some e ∧ is_builder_call ev = true ∧
      err = componentFailure ev name e.
Proof.
  revert s. induction components as [|c rest IH]; intros s; [done|].
  cbn [renderComponents]. unfold bind.
  pose proof (renderComponent_run t ctx v cbm c s) as Hrun. cbn zeta in Hrun.
  rewrite Hrun. clear Hrun.
  assert (∀ w',
    let s' := {| world := w'; calls := calls s ++ componentCalls v c |} in
    (renderComponents t ctx v cbm rest s').1 = inl err →
    Unwrap err = None
    ∨ ∃ evs ev e name,
        calls (renderComponents t ctx v cbm rest s').2 = calls s ++ evs ++ [ev] ∧
        Call_failure ev = Some e ∧ is_builder_call ev = true ∧
        err = componentFailure ev name e) as Hnext.
  { intros w' s' Herr.
    destruct (IH s' Herr) as [?|(evs & ev & e & name & Hc & ?)]; [by left|].
    right. exists (componentCalls v c ++ evs), ev, e, name.
    split; [|done]. rewrite Hc. subst s'. cbn [calls]. by rewrite <- !app_assoc. }
  destruct (cbm !! Component.Name c) as [bm|]; [|intros [= <-]; by left].
  destruct (bm !! _) as [b|]; [|intros [= <-]; by left].
  destruct (Build b _ _ _ _ _) as [[e|] w].
  { intros [= <-]. right. by eexists [], _, e, _. }
  destruct v; [|apply Hnext].
  destruct (Validate b _ _ _) as [[e|] w']; [|apply Hnext].
  intros [= <-]. right. by eexists [_], _, e, _.
Qed.

(** X3.  The error [Render] returns has a cause to unwrap only when it comes
    from a builder: the cause is then the error that the last call of the
    run, a [Build] or a [Validate], returned.  Errors of the parsers, of the
    assembly and of the lookup of a component carry no cause. *)
Theorem Render_error_cause t ctx v s err e :
  (Render t ctx v s).1 = inl err →
  Unwrap err = Some e →
  ∃ evs ev,
    calls_since s (Render t ctx v s).2 = evs ++ [ev] ∧
    is_builder_call ev = true ∧ Call_failure ev = Some e.
Proof.
  destruct (parse_errors_are_flat t) as [Hflat1 Hflat2].
  unfold Render, bind, of_result.
  destruct (parseCatalogsSpec t) as [e0|cat]; cbn.
  { intros [= <-] Hcause. rewrite (Hflat1 e0 eq_refl) in Hcause. done. }
  destruct (parseContributionSpec t) as [e0|comp]; cbn.
  { intros [= <-] Hcause. rewrite (Hflat2 e0 eq_refl) in Hcause. done. }
  destruct (newCatalogBuilderMap_run t (CatalogConfig.Catalogs cat) (outputType t) s)
    as (news & _ & Hnews & _ & Hres).
  destruct (newCatalogBuilderMap _ _ _ _) as [[e0|cbm] s0]; cbn in *.
  { intros [= <-] Hcause.
    destruct Hres as [(c & schema & _ & _ & _ & _ & ->)|(_ & errs & _ & ->)]; done. }
  intros Herr Hcause.
  destruct (renderComponents_error _ _ _ _ _ _ _ Herr)
    as [Hnone|(evs & ev & e' & name & Hc & Hev & Hb & ->)]; [congruence|].
  cbn in Hcause. injection Hcause as ->.
  exists (news ++ evs), ev. split; [|done].
  apply calls_since_app. by rewrite Hc, Hnews, <- !app_assoc.
Qed.

(** X4.  When validation is not requested, [Render] never invokes
    [Validate]. *)
Theorem Render_never_validates_unrequested t ctx s :
  Forall (λ ev, is_validate_call ev = false)
         (calls_since s (Render t ctx false s).2).
Proof.
  unfold Render, bind, of_result.
  destruct (parseCatalogsSpec t) as [e0|cat]; cbn.
  { unfold calls_since. rewrite drop_all. constructor. }
  destruct (parseContributionSpec t) as [e0|comp]; cbn.
  { unfold calls_since. rewrite drop_all. constructor. }
  destruct (newCatalogBuilderMap_run t (CatalogConfig.Catalogs cat) (outputType t) s)
    as (news & _ & Hnews & Hnb & _).
  assert (Forall (λ ev, is_validate_call ev = false) news) as Hnews_ok.
  { eapply Forall_impl; [exact Hnb|]. by intros []. }
  destruct (newCatalogBuilderMap _ _ _ _) as [[e0|cbm] s0]; cbn in Hnews.
  { cbn. by rewrite (calls_since_app _ _ _ Hnews). }
  assert (∀ cs, Forall (λ ev, is_validate_call ev = false)
                       (flat_map (componentCalls false) cs)) as Hcs.
  { intros cs. induction cs as [|c cs IHcs]; [constructor|].
    cbn. by constructor. }
  destruct (renderComponents_trace t ctx false cbm (CompositeConfig.Components comp) s0)
    as [[_ Hc]|(pre & c & post & tail & _ & Hc & Hcase)];
    rewrite Hnews, <- app_assoc in Hc; rewrite (calls_since_app _ _ _ Hc).
  { by apply Forall_app. }
  apply Forall_app. split; [done|]. apply Forall_app. split; [done|].
  destruct Hcase as [(_ & -> & _)|(inV & e & ev & Hv & -> & _)]; [constructor|].
  destruct inV; [by specialize (Hv eq_refl)|]. by repeat constructor.
Qed.

(** X5.  [Render] reports success only when everything was done: both
    documents parsed, every catalog passed validation, and after the
    constructor calls of the assembly every component of the Composite
    document was built, and validated when requested, in document order, with
    no call returning an error.  No component is skipped silently. *)
Theorem Render_success_means_all_built t ctx v s :
  (Render t ctx v s).1 = inr tt →
  ∃ catalogFile' contributionFile' news,
    parseCatalogsSpec t = inr catalogFile' ∧
    parseContributionSpec t = inr contributionFile' ∧
    Forall (λ c, ¬ workingDirEmpty c) (CatalogConfig.Catalogs catalogFile') ∧
    Forall (λ ev, is_builder_call ev = false) news ∧
    calls_since s (Render t ctx v s).2
      = news ++ flat_map (componentCalls v)
                         (CompositeConfig.Components contributionFile').
Proof.
  unfold Render, bind, of_result.
  destruct (parseCatalogsSpec t) as [e0|cat]; cbn; [done|].
  destruct (parseContributionSpec t) as [e0|comp]; cbn; [done|].
  destruct (newCatalogBuilderMap_run t (CatalogConfig.Catalogs cat) (outputType t) s)
    as (news & _ & Hnews & Hnb & Hres).
  destruct (newCatalogBuilderMap _ _ _ _) as [[e0|cbm] s0]; cbn in *; [done|].
  destruct Hres as [Hvalid _]. intros Hok.
  exists cat, comp, news. split_and!; try done.
  destruct (renderComponents_trace t ctx v cbm (CompositeConfig.Components comp) s0)
    as [[_ Hc]|(pre & c & post & tail & _ & _ & Hcase)].
  - apply calls_since_app. by rewrite Hc, Hnews, <- app_assoc.
  - exfalso. rewrite Hok in Hcase.
    destruct Hcase as [(_ & _ & ?)|(? & ? & ? & _ & _ & _ & ?)]; done.
Qed.

(** ** Properties of NewTemplate *)

Lemma optionOf_registeredBuilders x t :
  registeredBuilders (optionOf x t) = registeredBuilders t.
Proof. by destruct x. Qed.

Lemma optionOf_settled x t : settled x (optionOf x t).
Proof. by destruct x. Qed.

Lemma optionOf_keeps_settled x y t :
  sameField x y = false → settled x t → settled x (optionOf y t).
Proof. by destruct x, y. Qed.

(** X6.  No option touches the registry of builder constructors: a Template
    made by [NewTemplate] from any options of the package resolves the four
    default schemas, each to its own constructor, and no other schema. *)
Theorem NewTemplate_default_registry settings schema :
  registeredBuilders (NewTemplate (optionOf <$> settings)) !! schema
    = defaultBuilder schema.
Proof.
  unfold NewTemplate. cbv zeta.
  induction settings as [|x settings IH] using rev_ind.
  - cbn. rewrite !lookup_insert, lookup_empty. unfold defaultBuilder.
    repeat case_decide; first [reflexivity | congruence].
  - rewrite fmap_app, foldl_app. cbn [fmap list_fmap foldl].
    by rewrite optionOf_registeredBuilders.
Qed.

(** X11.  Options are applied in the order given: a setting holds in the
    Template [NewTemplate] returns unless a later option sets the same
    field; options for other fields, before or after, do not disturb it. *)
Theorem NewTemplate_last_setting_wins pre x post :
  Forall (λ y, sameField x y = false) post →
  settled x (NewTemplate (optionOf <$> (pre ++ x :: post))).
Proof.
  intros Hpost. unfold NewTemplate. cbv zeta.
  rewrite fmap_app, foldl_app, fmap_cons. cbn [foldl].
  generalize (foldl (λ temp opt, opt temp)
                {| catalogFile := nilReader; contributionFile := nilReader;
                   validate := false; outputType := ""; registry := nilRegistry;
                   registeredBuilders :=
                     <[BasicBuilderSchema := λ bc, NewBasicBuilder bc]>
                       (<[SemverBuilderSchema := λ bc, NewSemverBuilder bc]>
                          (<[RawBuilderSchema := λ bc, NewRawBuilder bc]>
                             (<[CustomBuilderSchema := λ bc, NewCustomBuilder bc]> ∅))) |}
                (optionOf <$> pre)) as t0.
  intros t0. pose proof (optionOf_settled x t0) as Hset.
  generalize dependent (optionOf x t0). clear t0.
  induction Hpost as [|y post Hy _ IH]; intros t1 Hset; [done|].
  cbn [fmap list_fmap foldl]. apply IH. by apply optionOf_keeps_settled.
Qed.

End Composite.

(** ** Concrete runs

    A small instance of everything the development is parametric in: the
    world is the list of destination paths written so far, documents are
    held in memory under a name, and three builders are registered. *)

Module Examples.

Definition dq : string := String (ascii_of_nat 34) EmptyString.

(** [strconv.Quote] on printable ASCII without quotes or backslashes. *)
Definition quote (s : string) : string := dq +:+ s +:+ dq.

Definition World : Type := list string.

Definition CatalogSchema : string := "olm.composite.catalogs".
Definition CompositeSchema : string := "olm.composite".

Definition basicSchema : string := "olm.builder.basic".
Definition failingSchema : string := "test.builder.failing".
Definition strictSchema : string := "test.builder.strict".

(** Writes its destination; validation passes. *)
Definition basicBuilder : @Builder World unit unit :=
  {| Build := λ _ _ path _ w, (None, w ++ [path]);
     Validate := λ _ _ w, (None, w) |}.

Definition imageNotFound : error := errorString "image not found".
Definition invalidCatalog : error := errorString "invalid catalog".

(** [Build] fails and writes nothing. *)
Definition failingBuilder : @Builder World unit unit :=
  {| Build := λ _ _ _ _ w, (Some imageNotFound, w);
     Validate := λ _ _ w, (None, w) |}.

(** Writes its destination; validation rejects it. *)
Definition strictBuilder : @Builder World unit unit :=
  {| Build := λ _ _ path _ w, (None, w ++ [path]);
     Validate := λ _ _ w, (Some invalidCatalog, w) |}.

Definition builders : gmap string (BuilderConfig → @Builder World unit unit) :=
  <[basicSchema := λ _, basicBuilder]>
    (<[failingSchema := λ _, failingBuilder]>
       (<[strictSchema := λ _, strictBuilder]> ∅)).

Definition catalog (name workingDir : string) (schemas : list string)
    : Catalog.t :=
  Catalog.mk name (CatalogDestination.mk workingDir) schemas.

Definition component (name schema path : string) : Component.t :=
  Component.mk name (ComponentDestination.mk path)
    (Strategy.mk (TemplateDefinition.mk schema "{}")).

(** The catalog documents, by name. *)
Definition catalogDocs : list (string * CatalogConfig.t) :=
  [ ("stable.yaml",
     CatalogConfig.mk CatalogSchema
       [catalog "stable" "/tmp/stable" [basicSchema; failingSchema; strictSchema]]);
    ("wrong-schema.yaml",
     CatalogConfig.mk "olm.semver"
       [catalog "stable" "/tmp/stable" [basicSchema]]) ].

(** The composite documents, by name. *)
Definition compositeDocs : list (string * CompositeConfig.t) :=
  [ ("two-basic.yaml",
     CompositeConfig.mk CompositeSchema
       [component "stable" basicSchema "out/one";
        component "stable" basicSchema "out/two"]);
    ("failing-first.yaml",
     CompositeConfig.mk CompositeSchema
       [component "stable" failingSchema "out/one";
        component "stable" basicSchema "out/two"]);
    ("strict-first.yaml",
     CompositeConfig.mk CompositeSchema
       [component "stable" strictSchema "out/one";
        component "stable" basicSchema "out/two"]);
    ("one-basic.yaml",
     CompositeConfig.mk CompositeSchema
       [component "stable" basicSchema "out/one"]);
    ("wrong-schema.yaml",
     CompositeConfig.mk "olm.composite.catalogs"
       [component "stable" basicSchema "out/one"]);
    ("unstable.yaml",
     CompositeConfig.mk CompositeSchema
       [component "stable" basicSchema "out/one";
        component "unstable" basicSchema "out/two"]);
    ("failing-then-unstable.yaml",
     CompositeConfig.mk CompositeSchema
       [component "stable" failingSchema "out/one";
        component "unstable" basicSchema "out/two"]);
    ("undeclared.yaml",
     CompositeConfig.mk CompositeSchema
       [component "stable" basicSchema "out/one";
        component "stable" "olm.builder.raw" "out/two"]);
    ("unstable-then-undeclared.yaml",
     CompositeConfig.mk CompositeSchema
       [component "unstable" basicSchema "out/one";
        component "stable" "olm.builder.raw" "out/two"]) ].

Definition decode (r : string) : error + string :=
  if decide (r = "") then inl (errorString "EOF") else inr r.

Definition unmarshal {A} (docs : list (string * A)) (doc : string) : error + A :=
  match find (λ d, bool_decide (d.1 = doc)) docs with
  | Some d => inr d.2
  | None => inl (errorString "cannot unmarshal")
  end.

Definition template (catalogFile' contributionFile' : string)
    : @Template World unit unit string :=
  {| catalogFile := catalogFile'; contributionFile := contributionFile';
     validate := false; outputType := "yaml"; registry := tt;
     registeredBuilders := builders |}.

Definition start : @State World := {| world := []; calls := [] |}.

Definition render (t : @Template World unit unit string) (v : bool)
    : @State World → (error + unit) * @State World :=
  Render quote range_canonical CatalogSchema CompositeSchema decode
    (unmarshal catalogDocs) (unmarshal compositeDocs) t tt v.

Definition assemble (catalogs : list Catalog.t)
    : (error + gmap string (gmap string (@Builder World unit unit)))
      * @State World :=
  newCatalogBuilderMap quote range_canonical (template "" "") catalogs "yaml" start.

(** The matrix assembled from stable.yaml, and the state the assembly
    leaves: three constructor calls. *)
Definition stableMatrix : gmap string (gmap string (@Builder World unit unit)) :=
  <["stable" := <[strictSchema := strictBuilder]>
                  (<[failingSchema := failingBuilder]>
                     (<[basicSchema := basicBuilder]> ∅))]> ∅.

Definition assembled : @State World :=
  {| world := [];
     calls := [NewBuilderCall basicSchema {| OutputType := "yaml" |};
               NewBuilderCall failingSchema {| OutputType := "yaml" |};
               NewBuilderCall strictSchema {| OutputType := "yaml" |}] |}.

(** The matrix assembled from [stableTwice], defined below. *)
Definition basicOnlyMatrix : gmap string (gmap string (@Builder World unit unit)) :=
  <["stable" := <[basicSchema := basicBuilder]> ∅]> ∅.



(** Catalog sequences for the assembly. *)
Definition bogusThenEmpty : list Catalog.t :=
  [catalog "a" "/tmp/a" ["olm.builder.bogus"]; catalog "b" "" []].

Definition emptyThenBogus : list Catalog.t :=
  [catalog "a" "" []; catalog "b" "/tmp/b" ["olm.builder.bogus"];
   catalog "c" "" [basicSchema]].

Definition emptyAmongValid : list Catalog.t :=
  [catalog "a" "" []; catalog "b" "/tmp/b" [basicSchema]; catalog "c" "" []].

Definition stableTwice : list Catalog.t :=
  [catalog "stable" "/tmp/stable" [basicSchema];
   catalog "stable" "/tmp/other" [failingSchema; strictSchema]].

(** A file system with one file and a network with one host, which answers
    404. *)
Definition ParseRequestURI (path : string) : error + string :=
  if String.prefix "http://" path || String.prefix "/" path
  then inr path
  else inl (errorString "invalid URI for request").

Definition IsAbs (path : string) : bool := String.prefix "/" path.

Definition os_Open (path : string) (w : World) : (error + string) * World :=
  if decide (path = "/etc/catalogs.yaml")
  then (inr "schema: olm.composite.catalogs", w)
  else (inl (errorString "no such file or directory"), w).

Definition getter : @HttpGetter World string :=
  {| Get := λ url w,
       if decide (url = "http://example.com/catalogs.yaml")
       then (inr {| StatusCode := 404; Body := "404 page not found" |}, w)
       else (inl (errorString "no such host"), w) |}.

Definition fetch (path : string) : (error + string) * World :=
  FetchCatalogConfig quote ParseRequestURI id IsAbs os_Open path getter [].

End Examples.

Import Examples.

(** Side conditions on concrete catalogs: a catalog with an empty
    [workingDir] does not pass validation; the schemas of the others are looked
    up in the registry. *)
Ltac catalog_side_condition :=
  first
    [ intros Hvalid; exfalso; apply Hvalid; reflexivity
    | intros _; repeat (apply Forall_cons; split; [vm_compute; eauto|]);
      apply List.Forall_nil ].

Ltac for_each tac :=
  repeat (apply Forall_cons; split; [tac|]); apply List.Forall_nil.

Ltac each_catalog := for_each catalog_side_condition.

Ltac all_have_workingDir := for_each ltac:(intros H; discriminate H).

Ltac all_registered := for_each ltac:(for_each ltac:(vm_compute; eauto)).

(** *** The catalog/builder matrix *)

(** C1, counterexample.  The first catalog passes validation and declares an
    unregistered schema, the second has an empty [workingDir]: the call fails
    with the unknown-schema error of the first, not with the aggregated
    validation error. *)
Lemma newCatalogBuilderMap_unknown_schema_despite_empty_workingDir :
  Exists workingDirEmpty bogusThenEmpty ∧
  (assemble bogusThenEmpty).1
    = inl (errorString (unknownSchemaMsg quote "olm.builder.bogus" "a")) ∧
  ∀ errMsg, (assemble bogusThenEmpty).1
              ≠ inl (errorString (validationFailedMsg errMsg)).
Proof.
  split; [apply Exists_cons_tl, Exists_cons_hd; reflexivity|].
  split; [vm_compute; reflexivity|].
  intros errMsg. vm_compute. intros H. discriminate H.
Qed.

(** Builders are resolved for the catalogs that pass validation even when
    another catalog does not: the call fails with the aggregated validation
    error after the constructor of the valid catalog's builder has run. *)
Example newCatalogBuilderMap_resolves_despite_empty_workingDir :
  (∃ errMsg, (assemble emptyAmongValid).1
               = inl (errorString (validationFailedMsg errMsg))) ∧
  calls (assemble emptyAmongValid).2
    = [NewBuilderCall basicSchema {| OutputType := "yaml" |}].
Proof. split; [eexists|]; vm_compute; reflexivity. Qed.

Lemma newCatalogBuilderMap_fails_on_empty_workingDir_witness :
  Exists workingDirEmpty emptyAmongValid ∧
  ∃ errMsg, (assemble emptyAmongValid).1
              = inl (errorString (validationFailedMsg errMsg)).
Proof.
  assert (Exists workingDirEmpty emptyAmongValid) as Hex
    by (apply Exists_cons_hd; reflexivity).
  split; [exact Hex|].
  apply (newCatalogBuilderMap_fails_on_empty_workingDir quote range_canonical
           (template "" "") emptyAmongValid "yaml" start Hex).
  each_catalog.
Defined.

(** C2, counterexample.  Two catalogs have an empty [workingDir]; a third,
    between them, passes validation and declares an unregistered schema.  The
    call fails with the unknown-schema error, which names neither of the
    two. *)
Lemma newCatalogBuilderMap_unknown_schema_hides_field_errors :
  Exists workingDirEmpty emptyThenBogus ∧
  (assemble emptyThenBogus).1
    = inl (errorString (unknownSchemaMsg quote "olm.builder.bogus" "b")) ∧
  ∀ errMsg, (assemble emptyThenBogus).1
              ≠ inl (errorString (validationFailedMsg errMsg)).
Proof.
  split; [apply Exists_cons_hd; reflexivity|].
  split; [vm_compute; reflexivity|].
  intros errMsg. vm_compute. intros H. discriminate H.
Qed.

Lemma newCatalogBuilderMap_reports_every_invalid_catalog_witness :
  ∃ errMsg,
    (assemble emptyAmongValid).1
      = inl (errorString (validationFailedMsg errMsg)) ∧
    ∀ c, c ∈ emptyAmongValid → workingDirEmpty c →
         occurs_in (newline +:+ "Catalog " +:+ Catalog.Name c +:+ ":" +:+ newline
                      +:+ "  - " +:+ workingDirMsg +:+ newline)
                   errMsg.
Proof.
  apply (newCatalogBuilderMap_reports_every_invalid_catalog quote range_canonical
           (template "" "") emptyAmongValid "yaml" start).
  - apply Exists_cons_hd. reflexivity.
  - each_catalog.
Defined.

Lemma newCatalogBuilderMap_first_occurrence_wins_witness :
  (assemble stableTwice).1 = inr basicOnlyMatrix ∧
  firstCatalogNamed "stable" stableTwice
    = Some (catalog "stable" "/tmp/stable" [basicSchema]) ∧
  ∃ bm, basicOnlyMatrix !! "stable" = Some bm ∧
        builtFrom (template "" "") "yaml" [basicSchema] bm.
Proof.
  assert ((assemble stableTwice).1 = inr basicOnlyMatrix) as Hrun
    by (vm_compute; reflexivity).
  split; [exact Hrun|]. split; [reflexivity|].
  exact (newCatalogBuilderMap_first_occurrence_wins quote range_canonical
           (template "" "") stableTwice "yaml" start basicOnlyMatrix "stable"
           (catalog "stable" "/tmp/stable" [basicSchema]) Hrun eq_refl).
Defined.

(** *** Render *)

Definition stableConfig : CatalogConfig.t :=
  CatalogConfig.mk CatalogSchema
    [catalog "stable" "/tmp/stable" [basicSchema; failingSchema; strictSchema]].

Definition componentsOf (doc : string) : list Component.t :=
  match unmarshal compositeDocs doc with
  | inr cfg => CompositeConfig.Components cfg
  | inl _ => []
  end.

Definition templateOf (schema : string) : TemplateDefinition.t :=
  TemplateDefinition.mk schema "{}".

(** Every component of the document names a catalog of stable.yaml and a
    schema it declares. *)
Ltac each_component :=
  for_each ltac:(eexists; split; [reflexivity | vm_compute; set_solver]).

(** C3, counterexample.  Both documents are valid and every component names
    the catalog and a schema it declares, yet [Render] fails, because the
    builder of the first component does; the second component is never
    built. *)
Lemma Render_fails_when_a_builder_fails :
  let t := template "stable.yaml" "failing-first.yaml" in
  parseCatalogsSpec quote CatalogSchema decode (unmarshal catalogDocs) t
    = inr stableConfig ∧
  is_err (parseContributionSpec quote CompositeSchema decode
            (unmarshal compositeDocs) t) = false ∧
  Forall (λ c, ¬ workingDirEmpty c) (CatalogConfig.Catalogs stableConfig) ∧
  Forall (buildersRegistered t) (CatalogConfig.Catalogs stableConfig) ∧
  Forall (λ component,
            ∃ c, firstCatalogNamed (Component.Name component)
                   (CatalogConfig.Catalogs stableConfig) = Some c ∧
                 TemplateDefinition.Schema
                   (Strategy.Template (Component.Strategy component))
                   ∈ Catalog.Builders c)
         (componentsOf "failing-first.yaml") ∧
  (render t true start).1
    = inl (wrapError ("building component " +:+ quote "stable" +:+ ": "
                        +:+ Error imageNotFound) imageNotFound) ∧
  (render t true start).1 ≠ inr tt ∧
  filter (λ ev, is_builder_call ev = true)
         (calls_since start (render t true start).2)
    = [BuildCall "stable" "out/one" (templateOf failingSchema) (Some imageNotFound)].
Proof.
  cbv zeta. split_and!.
  - reflexivity.
  - reflexivity.
  - all_have_workingDir.
  - all_registered.
  - each_component.
  - vm_compute. reflexivity.
  - vm_compute. intros H. discriminate H.
  - vm_compute. reflexivity.
Qed.

Lemma Render_builds_each_component_in_order_witness :
  let t := template "stable.yaml" "two-basic.yaml" in
  (render t true start).1 = inr tt ∧
  ∃ news,
    Forall (λ ev, is_builder_call ev = false) news ∧
    calls_since start (render t true start).2
      = news ++ [BuildCall "stable" "out/one" (templateOf basicSchema) None;
                 ValidateCall "stable" basicSchema "out/one" None;
                 BuildCall "stable" "out/two" (templateOf basicSchema) None;
                 ValidateCall "stable" basicSchema "out/two" None].
Proof.
  cbv zeta.
  refine (Render_builds_each_component_in_order quote range_canonical
            CatalogSchema CompositeSchema decode (unmarshal catalogDocs)
            (unmarshal compositeDocs) (template "stable.yaml" "two-basic.yaml")
            tt true start stableConfig
            (CompositeConfig.mk CompositeSchema (componentsOf "two-basic.yaml"))
            _ _ _ _ _ _).
  - reflexivity.
  - reflexivity.
  - all_have_workingDir.
  - all_registered.
  - each_component.
  - vm_compute. repeat constructor.
Defined.

Lemma Render_stops_at_first_failure_witness :
  let t := template "stable.yaml" "failing-first.yaml" in
  let ev := BuildCall "stable" "out/one" (templateOf failingSchema)
              (Some imageNotFound) in
  calls_since start (render t true start).2 = calls assembled ++ [ev] ∧
  ∃ contributionFile' pre component post news inValidate,
    parseContributionSpec quote CompositeSchema decode (unmarshal compositeDocs) t
      = inr contributionFile' ∧
    CompositeConfig.Components contributionFile' = pre ++ component :: post ∧
    Forall (λ ev, is_builder_call ev = false) news ∧
    (inValidate = true → true = true) ∧
    calls assembled ++ [ev]
      = news ++ flat_map (componentCalls true) pre
          ++ failingCalls component inValidate imageNotFound ∧
    (render t true start).1
      = inl (componentFailure quote ev (Component.Name component) imageNotFound) ∧
    Unwrap (componentFailure quote ev (Component.Name component) imageNotFound)
      = Some imageNotFound.
Proof.
  cbv zeta.
  assert (calls_since start (render (template "stable.yaml" "failing-first.yaml")
                               true start).2
          = calls assembled
              ++ BuildCall "stable" "out/one" (templateOf failingSchema)
                   (Some imageNotFound) :: []) as Hcalls
    by (vm_compute; reflexivity).
  split; [exact Hcalls|].
  exact (proj2 (Render_stops_at_first_failure quote range_canonical
                  CatalogSchema CompositeSchema decode (unmarshal catalogDocs)
                  (unmarshal compositeDocs) _ tt true start _ _ _ imageNotFound
                  Hcalls eq_refl)).
Defined.

(** A failing [Validate] ends the run in the same way, after the [Build] of
    the same component. *)
Example Render_stops_at_failed_validation :
  let t := template "stable.yaml" "strict-first.yaml" in
  render t true start
    = (inl (wrapError ("validating component " +:+ quote "stable" +:+ ": "
                         +:+ Error invalidCatalog) invalidCatalog),
       {| world := ["out/one"];
          calls := calls assembled
                     ++ [BuildCall "stable" "out/one" (templateOf strictSchema) None;
                         ValidateCall "stable" strictSchema "out/one"
                           (Some invalidCatalog)] |}).
Proof. vm_compute. reflexivity. Qed.

(** C6, counterexample.  The second component names a catalog that is not in
    the matrix, but the [Build] of the first component fails: [Render] returns
    that wrapped error, which is not an unknown-component-catalog error. *)
Lemma Render_reports_earlier_failure_not_unknown_catalog :
  let t := template "stable.yaml" "failing-then-unstable.yaml" in
  newCatalogBuilderMap quote range_canonical t
    (CatalogConfig.Catalogs stableConfig) (outputType t) start
    = (inr stableMatrix, assembled) ∧
  component "unstable" basicSchema "out/two"
    ∈ componentsOf "failing-then-unstable.yaml" ∧
  stableMatrix !! "unstable" = None ∧
  (render t true start).1
    = inl (wrapError ("building component " +:+ quote "stable" +:+ ": "
                        +:+ Error imageNotFound) imageNotFound) ∧
  ∀ name allowed,
    (render t true start).1 ≠ inl (errorString (unknownCatalogMsg quote name allowed)).
Proof.
  cbv zeta. split_and!.
  - vm_compute. reflexivity.
  - vm_compute. set_solver.
  - vm_compute. reflexivity.
  - vm_compute. reflexivity.
  - intros name allowed. vm_compute. intros H. discriminate H.
Qed.

Lemma Render_unknown_component_catalog_witness :
  let t := template "stable.yaml" "unstable.yaml" in
  let s1 := {| world := ["out/one"];
               calls := calls assembled
                          ++ componentCalls true
                               (component "stable" basicSchema "out/one") |} in
  is_err (render t true start).1 = true ∧
  Forall (λ ev, Call_component ev ≠ Some "unstable")
         (calls_since start (render t true start).2) ∧
  ∃ allowed,
    NoDup allowed ∧ (∀ k, k ∈ allowed ↔ is_Some (stableMatrix !! k)) ∧
    render t true start
      = (inl (errorString (unknownCatalogMsg quote "unstable" allowed)), s1) ∧
    ∀ k, is_Some (stableMatrix !! k) →
         occurs_in k (unknownCatalogMsg quote "unstable" allowed).
Proof.
  cbv zeta.
  destruct (Render_unknown_component_catalog quote range_canonical
              CatalogSchema CompositeSchema decode (unmarshal catalogDocs)
              (unmarshal compositeDocs) (template "stable.yaml" "unstable.yaml")
              tt true start stableConfig
              (CompositeConfig.mk CompositeSchema (componentsOf "unstable.yaml"))
              stableMatrix assembled
              [component "stable" basicSchema "out/one"]
              (component "unstable" basicSchema "out/two") [])
    as (Hfails & Hcalls & Hreached).
  - reflexivity.
  - reflexivity.
  - vm_compute. reflexivity.
  - reflexivity.
  - vm_compute. reflexivity.
  - split; [exact Hfails|]. split; [exact Hcalls|].
    apply Hreached. vm_compute. reflexivity.
Defined.

(** C7, counterexample.  The second component asks for a schema its catalog
    does not declare, but the first names a catalog that is not in the matrix:
    [Render] fails with the error of the first. *)
Lemma Render_reports_earlier_failure_not_unknown_schema :
  let t := template "stable.yaml" "unstable-then-undeclared.yaml" in
  newCatalogBuilderMap quote range_canonical t
    (CatalogConfig.Catalogs stableConfig) (outputType t) start
    = (inr stableMatrix, assembled) ∧
  component "stable" "olm.builder.raw" "out/two"
    ∈ componentsOf "unstable-then-undeclared.yaml" ∧
  (∃ bm, stableMatrix !! "stable" = Some bm ∧ bm !! "olm.builder.raw" = None) ∧
  (render t true start).1
    = inl (errorString (unknownCatalogMsg quote "unstable" ["stable"])) ∧
  (render t true start).1
    ≠ inl (errorString (noBuilderMsg quote "stable" "olm.builder.raw")).
Proof.
  cbv zeta. split_and!.
  - vm_compute. reflexivity.
  - vm_compute. set_solver.
  - eexists. split; vm_compute; reflexivity.
  - vm_compute. reflexivity.
  - vm_compute. intros H. discriminate H.
Qed.

Lemma Render_unknown_component_schema_witness :
  let t := template "stable.yaml" "undeclared.yaml" in
  let s1 := {| world := ["out/one"];
               calls := calls assembled
                          ++ componentCalls true
                               (component "stable" basicSchema "out/one") |} in
  is_err (render t true start).1 = true ∧
  Forall (λ ev, ¬ (Call_component ev = Some "stable" ∧
                   Call_schema ev = Some "olm.builder.raw"))
         (calls_since start (render t true start).2) ∧
  render t true start
    = (inl (errorString (noBuilderMsg quote "stable" "olm.builder.raw")), s1).
Proof.
  cbv zeta.
  destruct (Render_unknown_component_schema quote range_canonical
              CatalogSchema CompositeSchema decode (unmarshal catalogDocs)
              (unmarshal compositeDocs) (template "stable.yaml" "undeclared.yaml")
              tt true start stableConfig
              (CompositeConfig.mk CompositeSchema (componentsOf "undeclared.yaml"))
              stableMatrix assembled
              [component "stable" basicSchema "out/one"]
              (component "stable" "olm.builder.raw" "out/two") []
              (<[strictSchema := strictBuilder]>
                 (<[failingSchema := failingBuilder]>
                    (<[basicSchema := basicBuilder]> ∅))))
    as (Hfails & Hcalls & Hreached).
  - reflexivity.
  - reflexivity.
  - vm_compute. reflexivity.
  - reflexivity.
  - vm_compute. reflexivity.
  - vm_compute. reflexivity.
  - split; [exact Hfails|]. split; [exact Hcalls|].
    apply Hreached. vm_compute. reflexivity.
Defined.

(** *** Parsing *)

Lemma Render_schema_mismatch_is_fatal_witness :
  let t := template "wrong-schema.yaml" "one-basic.yaml" in
  catalogSchemaMismatch CatalogSchema decode (unmarshal catalogDocs) t ∧
  ∃ e, render t true start = (inl e, start) ∧
       calls_since start (render t true start).2 = [] ∧
       e = catalogSchemaError quote CatalogSchema.
Proof.
  cbv zeta.
  assert (catalogSchemaMismatch CatalogSchema decode (unmarshal catalogDocs)
            (template "wrong-schema.yaml" "one-basic.yaml")) as Hmis.
  { eexists _, _. split; [reflexivity|]. split; [reflexivity|].
    intros H. discriminate H. }
  split; [exact Hmis|].
  destruct (Render_schema_mismatch_is_fatal quote range_canonical
              CatalogSchema CompositeSchema decode (unmarshal catalogDocs)
              (unmarshal compositeDocs) (template "wrong-schema.yaml" "one-basic.yaml")
              tt true start (or_introl Hmis))
    as (e & Hrender & Hcalls & Hcat & _).
  exists e. split; [exact Hrender|]. split; [exact Hcalls|].
  exact (proj2 (Hcat Hmis)).
Defined.

(** The same for a Composite document, next to a Catalog document that
    parses. *)
Example Render_rejects_composite_schema :
  let t := template "stable.yaml" "wrong-schema.yaml" in
  compositeSchemaMismatch CompositeSchema decode (unmarshal compositeDocs) t ∧
  render t true start = (inl (compositeSchemaError quote CompositeSchema), start).
Proof.
  cbv zeta. split; [|vm_compute; reflexivity].
  eexists _, _. split; [reflexivity|]. split; [reflexivity|].
  intros H. discriminate H.
Qed.

(** *** FetchCatalogConfig *)

Lemma FetchCatalogConfig_local_or_remote_witness :
  fetch "catalogs.yaml"
    = (inl (errorString ("opening catalog config file " +:+ quote "catalogs.yaml"
                           +:+ ": " +:+ "no such file or directory")), []) ∧
  fetch "/etc/catalogs.yaml" = (inr "schema: olm.composite.catalogs", []) ∧
  fetch "http://example.com/catalogs.yaml" = (inr "404 page not found", []) ∧
  fetch "http://example.org/catalogs.yaml"
    = (inl (errorString ("fetching remote catalog config file "
                           +:+ quote "http://example.org/catalogs.yaml"
                           +:+ ": " +:+ "no such host")), []).
Proof.
  unfold fetch. split_and!.
  - etrans; [apply (proj1 (FetchCatalogConfig_local_or_remote quote
                             ParseRequestURI id IsAbs os_Open _ getter []))|];
      reflexivity.
  - etrans; [apply (proj1 (FetchCatalogConfig_local_or_remote quote
                             ParseRequestURI id IsAbs os_Open _ getter []))|];
      reflexivity.
  - destruct (proj2 (FetchCatalogConfig_local_or_remote quote
                       ParseRequestURI id IsAbs os_Open
                       "http://example.com/catalogs.yaml" getter []) eq_refl)
      as (u & Hu & ->).
    injection Hu as <-. reflexivity.
  - destruct (proj2 (FetchCatalogConfig_local_or_remote quote
                       ParseRequestURI id IsAbs os_Open
                       "http://example.org/catalogs.yaml" getter []) eq_refl)
      as (u & Hu & ->).
    injection Hu as <-. reflexivity.
Defined.

(** ** Further concrete runs *)

Module MoreExamples.

(** An empty [workingDir], a catalog defined twice, and one more. *)
Definition mixedCatalogs : list Catalog.t :=
  [catalog "a" "" [failingSchema];
   catalog "stable" "/tmp/stable" [basicSchema; strictSchema];
   catalog "stable" "/tmp/other" [failingSchema];
   catalog "b" "/tmp/b" [basicSchema]].

(** Two catalogs named [a] with an empty [workingDir], and a third one. *)
Definition repeatedEmpty : list Catalog.t :=
  [catalog "a" "" []; catalog "b" "/tmp/b" [basicSchema];
   catalog "a" "" [basicSchema]; catalog "c" "" []].

Definition emptyConfig : CatalogConfig.t :=
  CatalogConfig.mk CatalogSchema repeatedEmpty.

Definition moreCatalogDocs : list (string * CatalogConfig.t) :=
  [("repeated-empty.yaml", emptyConfig)].

(** [NewTemplate] with the schema identifiers of the four default builders
    and stand-ins for their constructors. *)
Definition newTemplate (settings : list (@Setting unit string))
    : @Template World unit unit string :=
  NewTemplate basicSchema "olm.builder.semver" "olm.builder.raw"
    "olm.builder.custom" (λ _, basicBuilder) (λ _, basicBuilder)
    (λ _, basicBuilder) (λ _, strictBuilder) "" tt
    (@optionOf World unit unit string <$> settings).

End MoreExamples.

Import MoreExamples.

Lemma newCatalogBuilderMap_constructs_first_occurrences_witness :
  calls_since start (assemble mixedCatalogs).2
    = flat_map (constructorCalls "yaml") (assembledCatalogs ∅ mixedCatalogs) ∧
  assembledCatalogs ∅ mixedCatalogs
    = [catalog "stable" "/tmp/stable" [basicSchema; strictSchema];
       catalog "b" "/tmp/b" [basicSchema]].
Proof.
  split; [|vm_compute; reflexivity].
  apply (newCatalogBuilderMap_constructs_first_occurrences quote range_canonical
           (template "" "") mixedCatalogs "yaml" start).
  each_catalog.
Defined.

Lemma newCatalogBuilderMap_entries_are_catalog_names_witness :
  (assemble stableTwice).1 = inr basicOnlyMatrix ∧
  (is_Some (basicOnlyMatrix !! "unstable")
   ↔ "unstable" ∈ Catalog.Name <$> stableTwice).
Proof.
  assert ((assemble stableTwice).1 = inr basicOnlyMatrix) as Hrun
    by (vm_compute; reflexivity).
  split; [exact Hrun|].
  exact (newCatalogBuilderMap_entries_are_catalog_names quote range_canonical
           (template "" "") stableTwice "yaml" start basicOnlyMatrix "unstable" Hrun).
Defined.

Lemma newCatalogBuilderMap_one_block_per_invalid_name_witness :
  ∃ names,
    NoDup names ∧
    (∀ name, name ∈ names ↔
             ∃ c, c ∈ repeatedEmpty ∧ workingDirEmpty c ∧ Catalog.Name c = name) ∧
    (assemble repeatedEmpty).1
      = inl (errorString
               (validationFailedMsg
                  (setupErrMsg ((λ name, (name, [workingDirMsg])) <$> names)))).
Proof.
  apply (newCatalogBuilderMap_one_block_per_invalid_name quote range_canonical
           (template "" "") repeatedEmpty "yaml" start).
  - apply Exists_cons_hd. reflexivity.
  - each_catalog.
Defined.

(** The message for [repeatedEmpty], in the order of [range_canonical]: the
    name [a] is reported once. *)
Example newCatalogBuilderMap_reports_repeated_name_once :
  (assemble repeatedEmpty).1
    = inl (errorString
             (validationFailedMsg
                (setupErrMsg [("c", [workingDirMsg]); ("a", [workingDirMsg])]))).
Proof. vm_compute. reflexivity. Qed.

Lemma Render_parse_failure_is_fatal_witness :
  let t := template "" "wrong-schema.yaml" in
  ∃ e,
    render t true start = (inl e, start) ∧
    (parseCatalogsSpec quote CatalogSchema decode (unmarshal catalogDocs) t = inl e
     ∨ (is_err (parseCatalogsSpec quote CatalogSchema decode
                  (unmarshal catalogDocs) t) = false ∧
        parseContributionSpec quote CompositeSchema decode
          (unmarshal compositeDocs) t = inl e)) ∧
    Unwrap e = None.
Proof.
  cbv zeta.
  exact (Render_parse_failure_is_fatal quote range_canonical CatalogSchema
           CompositeSchema decode (unmarshal catalogDocs) (unmarshal compositeDocs)
           (template "" "wrong-schema.yaml") tt true start eq_refl).
Defined.

Lemma Render_assembly_failure_is_fatal_witness :
  let t := template "repeated-empty.yaml" "two-basic.yaml" in
  let run := Render quote range_canonical CatalogSchema CompositeSchema decode
               (unmarshal moreCatalogDocs) (unmarshal compositeDocs) t tt true start in
  ∃ e,
    run.1 = inl e ∧ world run.2 = world start ∧
    Forall (λ ev, is_builder_call ev = false) (calls_since start run.2) ∧
    Unwrap e = None.
Proof.
  cbv zeta. eexists.
  refine (Render_assembly_failure_is_fatal quote range_canonical CatalogSchema
            CompositeSchema decode (unmarshal moreCatalogDocs)
            (unmarshal compositeDocs) (template "repeated-empty.yaml" "two-basic.yaml")
            tt true start emptyConfig
            (CompositeConfig.mk CompositeSchema (componentsOf "two-basic.yaml"))
            _ _ _ _).
  - reflexivity.
  - reflexivity.
  - vm_compute. reflexivity.
Defined.

Lemma Render_error_cause_witness :
  let t := template "stable.yaml" "strict-first.yaml" in
  ∃ evs ev,
    calls_since start (render t true start).2 = evs ++ [ev] ∧
    is_builder_call ev = true ∧ Call_failure ev = Some invalidCatalog.
Proof.
  cbv zeta.
  refine (Render_error_cause quote range_canonical CatalogSchema CompositeSchema
            decode (unmarshal catalogDocs) (unmarshal compositeDocs)
            (template "stable.yaml" "strict-first.yaml") tt true start
            (componentFailure quote
               (ValidateCall "stable" strictSchema "out/one" (Some invalidCatalog))
               "stable" invalidCatalog)
            invalidCatalog _ _).
  - vm_compute. reflexivity.
  - reflexivity.
Defined.

Lemma Render_success_means_all_built_witness :
  let t := template "stable.yaml" "two-basic.yaml" in
  (render t true start).1 = inr tt ∧
  ∃ catalogFile' contributionFile' news,
    parseCatalogsSpec quote CatalogSchema decode (unmarshal catalogDocs) t
      = inr catalogFile' ∧
    parseContributionSpec quote CompositeSchema decode (unmarshal compositeDocs) t
      = inr contributionFile' ∧
    Forall (λ c, ¬ workingDirEmpty c) (CatalogConfig.Catalogs catalogFile') ∧
    Forall (λ ev, is_builder_call ev = false) news ∧
    calls_since start (render t true start).2
      = news ++ flat_map (componentCalls true)
                         (CompositeConfig.Components contributionFile').
Proof.
  cbv zeta.
  assert ((render (template "stable.yaml" "two-basic.yaml") true start).1 = inr tt)
    as Hok by (vm_compute; reflexivity).
  split; [exact Hok|].
  exact (Render_success_means_all_built quote range_canonical CatalogSchema
           CompositeSchema decode (unmarshal catalogDocs) (unmarshal compositeDocs)
           (template "stable.yaml" "two-basic.yaml") tt true start Hok).
Defined.

Lemma NewTemplate_last_setting_wins_witness :
  outputType
    (newTemplate [SetOutputType "json"; SetValidate false; SetOutputType "yaml";
                  SetValidate true; SetRegistry tt]) = "yaml".
Proof.
  refine (NewTemplate_last_setting_wins (World := World) (Ctx := unit)
            basicSchema "olm.builder.semver" "olm.builder.raw" "olm.builder.custom"
            (λ _, basicBuilder) (λ _, basicBuilder) (λ _, basicBuilder)
            (λ _, strictBuilder) "" tt
            [SetOutputType "json"; SetValidate false] (SetOutputType "yaml")
            [SetValidate true; SetRegistry tt] _).
  repeat constructor.
Defined.
